(** * The eBay speaker deal finder: price parsing, scoring, deduplication, ranking

    A shallow embedding of [ebay_speaker_scraper.py] and the properties its
    specification states about it.

    Conventions of the embedding.
    - A Python [str] is a [string]; a character is a code point below 256
      (Rocq's [ascii], read as Latin-1).  On that range [\d] of the [re]
      module is exactly [0-9] and [str.lower] is the map written out in
      [lower_char].
    - A Python [int] is a [Z]; a Python [float] is a binary64 value, a
      [spec_float] of the standard library with [prec = 53], [emax = 1024].
    - A raised exception is the [Raise] outcome of [result]; [None] is the
      [None] of [option].
    - The network and the HTML parser are the environment: a results page
      reaches the model as the list of its [li.s-item] nodes, each node as
      the texts its selectors yield. *)

From Stdlib Require Import ZArith Ascii String List Bool Lia.
From Stdlib Require Import Floats.SpecFloat.
From Stdlib Require DecimalString DecimalZ.
From stdpp Require Import gmap strings sorting.

#[local] Set Warnings "-clear-no-such-hyp".

Local Open Scope string_scope.
Local Open Scope Z_scope.

#[local] Arguments String.append : simpl nomatch.

(** ** Outcomes *)

Inductive exn : Type := ValueError.

Inductive result (A : Type) : Type :=
  | Ok (a : A)
  | Raise (e : exn).

Arguments Ok {A} a.
Arguments Raise {A} e.

(** Sequencing: a raised exception ends the computation.  The instances
    give [x ← r; k] and [f <$> r] their meaning on [result]. *)
#[global] Instance result_ret : MRet result := fun A a => Ok a.

#[global] Instance result_bind : MBind result := fun A B k r =>
  match r with
  | Ok a => k a
  | Raise e => Raise e
  end.

#[global] Instance result_fmap : FMap result := fun A B f r =>
  match r with
  | Ok a => Ok (f a)
  | Raise e => Raise e
  end.

(** ** Strings *)

Module Str.

Definition code (c : ascii) : Z := Z.of_N (N_of_ascii c).

(** [\d] on code points below 256. *)
Definition is_digit (c : ascii) : bool := (48 <=? code c) && (code c <=? 57).

(** The character class [[\d,]]. *)
Definition is_digit_or_comma (c : ascii) : bool := is_digit c || Ascii.eqb c ",".

(** [str.lower] on one code point below 256: [A-Z] and the Latin-1 capitals
    (U+00C0 to U+00DE without the multiplication sign U+00D7) move up by 32. *)
Definition lower_char (c : ascii) : ascii :=
  let n := code c in
  if ((65 <=? n) && (n <=? 90)) || ((192 <=? n) && (n <=? 222) && negb (n =? 215))
  then ascii_of_N (Z.to_N (n + 32))
  else c.

Fixpoint lower (s : string) : string :=
  match s with
  | EmptyString => EmptyString
  | String c s' => String (lower_char c) (lower s')
  end.

(** [s.startswith(p)]. *)
Fixpoint startswith (p s : string) : bool :=
  match p with
  | EmptyString => true
  | String a p' =>
      match s with
      | EmptyString => false
      | String b s' => Ascii.eqb a b && startswith p' s'
      end
  end.

(** [needle in hay]. *)
Fixpoint contains (needle hay : string) : bool :=
  startswith needle hay ||
  match hay with
  | EmptyString => false
  | String _ hay' => contains needle hay'
  end.

(** [s.replace(c, "")] for a one-character [c]: every occurrence goes. *)
Fixpoint remove (c : ascii) (s : string) : string :=
  match s with
  | EmptyString => EmptyString
  | String a s' => if Ascii.eqb a c then remove c s' else String a (remove c s')
  end.

(** [s.split(c)[0]]: the text before the first [c], all of [s] without one. *)
Fixpoint before (c : ascii) (s : string) : string :=
  match s with
  | EmptyString => EmptyString
  | String a s' => if Ascii.eqb a c then EmptyString else String a (before c s')
  end.

(** The longest prefix of [s] made of characters in the class [p], and the
    rest: what a greedy [p*] consumes. *)
Fixpoint span (p : ascii -> bool) (s : string) : string * string :=
  match s with
  | EmptyString => (EmptyString, EmptyString)
  | String c s' =>
      if p c then let '(a, b) := span p s' in (String c a, b)
      else (EmptyString, s)
  end.

(** [b] does not start with a character of the class [p]: a span of [p]
    ends in front of it. *)
Definition stops (p : ascii -> bool) (b : string) : Prop :=
  match b with
  | EmptyString => True
  | String c _ => p c = false
  end.

(** Every character of [s] is in the class [p]. *)
Fixpoint all (p : ascii -> bool) (s : string) : bool :=
  match s with
  | EmptyString => true
  | String c s' => p c && all p s'
  end.

(** Some character of [s] is in the class [p]. *)
Fixpoint any (p : ascii -> bool) (s : string) : bool :=
  match s with
  | EmptyString => false
  | String c s' => p c || any p s'
  end.

End Str.

(** ** Binary64 values *)

Module F64.

Definition prec : Z := 53.
Definition emax : Z := 1024.

Fixpoint pow10 (k : nat) : positive :=
  match k with
  | O => 1%positive
  | S k' => (10 * pow10 k')%positive
  end.

(** The binary64 value nearest to [m / 10^k] (ties to even), for [0 <= m]:
    the value Python's [float] gives a decimal numeral whose digits, the
    point dropped, spell [m] and which has [k] digits after the point.  A
    quotient beyond the largest finite value is [inf], one below the
    smallest subnormal is [0.0]. *)
Definition of_decimal (m : Z) (k : nat) : spec_float :=
  match m with
  | Z0 => S754_zero false
  | Zpos p =>
      SFdiv prec emax (S754_finite false p 0)
                      (S754_finite false (pow10 k) 0)
  | Zneg _ => S754_nan
  end.

(** A Python [int] as the [float] it is compared with. *)
Definition of_int (n : Z) : spec_float := binary_normalize prec emax n 0 false.

Definition ltb (x y : spec_float) : bool := SFltb x y.
Definition eqb (x y : spec_float) : bool := SFeqb x y.
Definition leb (x y : spec_float) : bool := SFleb x y.

Definition is_nan (x : spec_float) : bool :=
  match x with S754_nan => true | _ => false end.

End F64.

(** ** The builtins the script calls *)

Module Py.

(** The number a run of decimal digits spells. *)
Definition digits_value (s : string) : Z :=
  fold_left (fun v c => 10 * v + (Str.code c - 48)) (list_ascii_of_string s) 0.

(** The unsigned plain decimals: digits, then at most a point and digits. *)
Definition plain_decimal (s : string) : Prop :=
  exists ip dot fp,
    s = ip ++ dot ++ fp /\
    Str.all Str.is_digit ip = true /\ Str.all Str.is_digit fp = true /\
    (dot = "." \/ (dot = EmptyString /\ fp = EmptyString)).

(** [float(s)] on the unsigned plain decimals [\d*\.?\d*]: at least one
    digit is needed, so the empty string and a lone point raise
    [ValueError].  Signs, exponents, [inf]/[nan], underscores and
    surrounding blanks, which [float] also reads, are outside this
    definition; [parse_price] never passes them
    (see [stripped_match_is_plain_decimal]). *)
Definition float (s : string) : result spec_float :=
  let '(ip, r) := Str.span Str.is_digit s in
  let '(fp, r') :=
    match r with
    | String "." t => Str.span Str.is_digit t
    | _ => (EmptyString, r)
    end in
  match r' with
  | EmptyString =>
      if (String.length ip + String.length fp =? 0)%nat then Raise ValueError
      else Ok (F64.of_decimal (digits_value (ip ++ fp)) (String.length fp))
  | String _ _ => Raise ValueError
  end.

End Py.

(** ** The price pattern *)

Module Re.

(** A pattern item matches one character: a literal or a class. *)
Inductive atom : Type :=
  | Lit (c : ascii)
  | Class (p : ascii -> bool).

Definition accepts (a : atom) (c : ascii) : bool :=
  match a with
  | Lit d => Ascii.eqb c d
  | Class p => p c
  end.

(** The greedy quantifiers: none, [?], [*], [+]. *)
Inductive quant : Type := One | Opt | Star | Plus.

(** A pattern of the kind the script uses: quantified one-character items
    in sequence. *)
Definition pattern : Type := list (atom * quant).

(** One character for [a], then [next] on what follows; the result is the
    text matched. *)
Definition one (a : atom) (next : string -> option string) (s : string)
    : option string :=
  match s with
  | String c s' => if accepts a c then String c <$> next s' else None
  | EmptyString => None
  end.

(** [a*] then [next], as a backtracking matcher runs it: one more character
    for [a] is tried first, and only when the rest then fails is [next]
    tried where the matcher stands. *)
Fixpoint star (a : atom) (next : string -> option string) (s : string)
    : option string :=
  match
    match s with
    | String c s' => if accepts a c then String c <$> star a next s' else None
    | EmptyString => None
    end
  with
  | Some m => Some m
  | None => next s
  end.

(** An attempt of a pattern at the head of a text: the matched prefix the
    backtracking matcher settles on, [None] when every way fails. *)
Fixpoint match_seq (items : pattern) : string -> option string :=
  match items with
  | [] => fun _ => Some EmptyString
  | (a, q) :: rest =>
      let next := match_seq rest in
      match q with
      | One => one a next
      | Opt => fun s =>
          match one a next s with
          | Some m => Some m
          | None => next s
          end
      | Star => star a next
      | Plus => one a (star a next)
      end
  end.

(** The pattern [\$[\d,]+\.?\d*]. *)
Definition PRICE_PATTERN : pattern :=
  [ (Lit "$", One); (Class Str.is_digit_or_comma, Plus);
    (Lit ".", Opt); (Class Str.is_digit, Star) ].

(** One attempt of the price pattern at the head of [s]. *)
Definition match_here (s : string) : option string := match_seq PRICE_PATTERN s.

(** The same attempt without backtracking.  Everything after [[\d,]+] may
    match the empty string, so the first try of the matcher succeeds
    whenever any does: [[\d,]+] takes the whole run of digits and commas,
    [\.?] takes a point when one follows, [\d*] takes the whole run of
    digits ([match_here_greedy]). *)
Definition greedy_match (s : string) : option string :=
  match s with
  | String "$" s1 =>
      let '(body, s2) := Str.span Str.is_digit_or_comma s1 in
      match body with
      | EmptyString => None
      | String _ _ =>
          let '(dot, s3) :=
            match s2 with
            | String "." t => (".", t)
            | _ => (EmptyString, s2)
            end in
          let '(frac, _) := Str.span Str.is_digit s3 in
          Some ("$" ++ body ++ dot ++ frac)
      end
  | _ => None
  end.

(** [re.findall]: the matches from left to right, none overlapping.  [skip]
    counts the characters of [s] that the last match still covers. *)
Fixpoint findall_from (skip : nat) (s : string) : list string :=
  match s with
  | EmptyString => []
  | String _ s' =>
      match skip with
      | S k => findall_from k s'
      | O =>
          match match_here s with
          | Some m => m :: findall_from (String.length m - 1) s'
          | None => findall_from 0 s'
          end
      end
  end.

Definition findall (text : string) : list string := findall_from 0 text.

(** The texts the pattern can match, read off the pattern: a dollar sign, a
    non-empty run of digits and commas, at most one point, a run of
    digits. *)
Inductive amount : string -> Prop :=
  | amount_intro (body dot frac : string) :
      body <> EmptyString ->
      Str.all Str.is_digit_or_comma body = true ->
      dot = EmptyString \/ dot = "." ->
      Str.all Str.is_digit frac = true ->
      amount ("$" ++ body ++ dot ++ frac).

(** [text] has a substring the pattern can match. *)
Definition has_amount (text : string) : Prop :=
  exists pre m suf, text = pre ++ m ++ suf /\ amount m.

End Re.

(** ** The script *)

Module Scraper.

Definition QUALITY_BRANDS : list string :=
  [ "bose"; "sonos"; "klipsch"; "polk"; "yamaha"; "denon"; "sony";
    "jbl"; "harman kardon"; "samsung"; "lg"; "onkyo"; "pioneer";
    "definitive technology"; "svs"; "kef"; "b&w"; "bowers"; "paradigm";
    "martin logan"; "elac"; "monoprice"; "vizio"; "enclave" ].

(** [parse_price]: the first match of the pattern, its dollar sign and
    commas removed, read by [float]; [None] when nothing matches. *)
Definition parse_price (text : string) : result (option spec_float) :=
  let prices := Re.findall text in
  match prices with
  | [] => Ok None
  | p :: _ => x ← Py.float (Str.remove "," (Str.remove "$" p)); Ok (Some x)
  end.

Definition is_quality_brand (title : string) : bool :=
  let lower := Str.lower title in
  existsb (fun brand => Str.contains brand lower) QUALITY_BRANDS.

(** One [li.s-item] node as its selectors see it: for each element the
    text [get_text] returns, [None] when [select_one] finds no element; for
    the anchor, its [href] attribute when it carries one. *)
Record node : Type := {
  title_el : option string;
  price_el : option string;
  link_el : option (option string);
  shipping_el : option string;
  condition_el : option string
}.

(** The dictionary appended to [listings]. *)
Record listing : Type := {
  title : string;
  price : spec_float;
  shipping : string;
  condition : string;
  link : string;
  brand_match : bool;
  deal_score : Z
}.

(** The deal score as the loop body computes it: a counter that starts at
    zero and is bumped by four tests in turn. *)
Definition score (brand_match free_shipping : bool) (price : spec_float)
    (condition : string) : Z :=
  let deal_score := 0 in
  let deal_score := if brand_match then deal_score + 3 else deal_score in
  let deal_score := if free_shipping then deal_score + 2 else deal_score in
  let deal_score :=
    if F64.ltb price (F64.of_int 200) then deal_score + 2
    else if F64.ltb price (F64.of_int 350) then deal_score + 1
    else deal_score in
  let deal_score :=
    if Str.contains "new" (Str.lower condition)
       || Str.contains "open box" (Str.lower condition)
    then deal_score + 1 else deal_score in
  deal_score.

(** The body of [for item in items]: [Ok None] is a [continue], [Ok (Some l)]
    an [append], [Raise] an exception that leaves the loop. *)
Definition scrape_item (item : node) : result (option listing) :=
  match title_el item, price_el item, link_el item with
  | Some title, Some price_text, Some href =>
      if Str.startswith "shop on ebay" (Str.lower title) then Ok None
      else
        parsed ← parse_price price_text;
        match parsed with
        | None => Ok None
        | Some price =>
            let link := default "" href in
            let shipping := default "N/A" (shipping_el item) in
            let condition := default "N/A" (condition_el item) in
            let brand_match := is_quality_brand title in
            let free_shipping := Str.contains "free" (Str.lower shipping) in
            let deal_score := score brand_match free_shipping price condition in
            Ok (Some {| title := title; price := price; shipping := shipping;
                        condition := condition; link := link;
                        brand_match := brand_match; deal_score := deal_score |})
        end
  | _, _, _ => Ok None
  end.

(** The item loop, threading the list it appends to. *)
Fixpoint scrape_items (items : list node) (listings : list listing)
    : result (list listing) :=
  match items with
  | [] => Ok listings
  | item :: rest =>
      r ← scrape_item item;
      scrape_items rest (match r with
                         | Some l => listings ++ [l]
                         | None => listings
                         end)
  end.

(** What [requests.get] and [raise_for_status] gave for one page: a
    [RequestException], or the page's nodes. *)
Inductive fetch : Type :=
  | RequestException
  | Page (items : list node).

(** The page loop of [scrape_listings]; [pages] holds the outcome of the
    fetch for page 1, 2, ... of one query.  A failed fetch is a [continue]. *)
Fixpoint scrape_pages (pages : list fetch) (listings : list listing)
    : result (list listing) :=
  match pages with
  | [] => Ok listings
  | RequestException :: rest => scrape_pages rest listings
  | Page items :: rest =>
      listings' ← scrape_items items listings;
      scrape_pages rest listings'
  end.

Definition scrape_listings (pages : list fetch) : result (list listing) :=
  scrape_pages pages [].

(** The dedup key of a listing. *)
Definition dedup_key (item : listing) : string := Str.before "?" (link item).

(** The loop of [deduplicate], threading [seen] and [unique]. *)
Fixpoint dedup_loop (listings : list listing) (seen : gset string)
    (unique : list listing) : list listing :=
  match listings with
  | [] => unique
  | item :: rest =>
      let key := dedup_key item in
      if decide (key ∉ seen)
      then dedup_loop rest ({[key]} ∪ seen) (unique ++ [item])
      else dedup_loop rest seen unique
  end.

Definition deduplicate (listings : list listing) : list listing :=
  dedup_loop listings ∅ [].

(** The sort key [(-x["deal_score"], x["price"])]. *)
Definition sort_key (x : listing) : Z * spec_float := (- deal_score x, price x).

(** [a < b] on two such tuples: the first position where they differ under
    [==] decides; tuples equal at both positions are not below each other. *)
Definition key_lt (a b : Z * spec_float) : bool :=
  if negb (a.1 =? b.1) then a.1 <? b.1
  else if negb (F64.eqb a.2 b.2) then F64.ltb a.2 b.2
  else false.

(** [list.sort(key=...)] is a stable ascending sort that compares keys with
    [<] only.  Insertion from the right is such a sort: an element goes in
    front of the sorted rest and moves past exactly the elements whose key
    is strictly below its own. *)
Fixpoint insert_sorted (x : listing) (ys : list listing) : list listing :=
  match ys with
  | [] => [x]
  | y :: ys' =>
      if key_lt (sort_key y) (sort_key x) then y :: insert_sorted x ys'
      else x :: y :: ys'
  end.

Fixpoint sort (xs : list listing) : list listing :=
  match xs with
  | [] => []
  | x :: xs' => insert_sorted x (sort xs')
  end.

(** [main] up to the sort: the listings of every query, one after the other
    ([responses] holds the page outcomes of each query in turn). *)
Fixpoint collect (responses : list (list fetch)) (all_listings : list listing)
    : result (list listing) :=
  match responses with
  | [] => Ok all_listings
  | pages :: rest =>
      results ← scrape_listings pages;
      collect rest (all_listings ++ results)
  end.

Definition ranked (responses : list (list fetch)) : result (list listing) :=
  all_listings ← collect responses [];
  Ok (sort (deduplicate all_listings)).

(** The selection [top] of [main] out of the sorted list. *)
Definition select_top (all_listings : list listing) : list listing :=
  let top := filter (fun l => 3 <= deal_score l) all_listings in
  match top with
  | [] => take 15 all_listings
  | _ :: _ => top
  end.

(** The listings the report prints a block for, in order: [top[:20]]. *)
Definition displayed (all_listings : list listing) : list listing :=
  take 20 (select_top all_listings).

Definition main (responses : list (list fetch)) : result (list listing) :=
  all_listings ← ranked responses;
  Ok (displayed all_listings).

End Scraper.

(** ** Notions the properties are stated with *)

Module Spec.
Import Scraper.

(** The four contributions to the deal score, each read off the fields of
    the listing it belongs to. *)
Definition brand_points (l : listing) : Z :=
  if existsb (fun brand => Str.contains brand (Str.lower (title l))) QUALITY_BRANDS
  then 3 else 0.

Definition shipping_points (l : listing) : Z :=
  if Str.contains "free" (Str.lower (shipping l)) then 2 else 0.

Definition price_points (l : listing) : Z :=
  if F64.ltb (price l) (F64.of_int 200) then 2
  else if F64.ltb (price l) (F64.of_int 350) then 1
  else 0.

Definition condition_points (l : listing) : Z :=
  if Str.contains "new" (Str.lower (condition l))
     || Str.contains "open box" (Str.lower (condition l))
  then 1 else 0.

(** [a] may stand directly before [b] in the ranking: its score is at
    least as high, and on equal scores its price is at most as high. *)
Definition ranked_before (a b : listing) : Prop :=
  deal_score b <= deal_score a /\
  (deal_score a = deal_score b -> F64.leb (price a) (price b) = true).

(** A price that is a number. *)
Definition numeric (l : listing) : Prop := F64.is_nan (price l) = false.

(** Position [p.1] of [xs], holding [p.2], is a first occurrence: the key of
    the listing there is the key of no listing before it. *)
Definition first_occurrence (xs : list listing) (p : nat * listing) : Prop :=
  dedup_key p.2 ∉ dedup_key <$> take p.1 xs.

#[global] Instance first_occurrence_dec xs p : Decision (first_occurrence xs p).
Proof. unfold first_occurrence. apply _. Defined.

(** The listings of [xs] at its first-occurrence positions, in order. *)
Definition first_occurrences (xs : list listing) : list listing :=
  (filter (first_occurrence xs) (imap pair xs)).*2.

(** The price of [l] is one that [parse_price] read from some text. *)
Definition parsed (l : listing) : Prop :=
  exists text, parse_price text = Ok (Some (price l)).

(** [item] with other shipping and condition elements. *)
Definition with_optional (item : node) (s c : option string) : node :=
  {| title_el := title_el item; price_el := price_el item;
     link_el := link_el item; shipping_el := s; condition_el := c |}.

(** [scrape_item] appends a listing for [item]. *)
Definition emitted (item : node) : Prop :=
  exists l, scrape_item item = Ok (Some l).

End Spec.

(** ** Sample data *)

Module Sample.
Import Scraper.

(** The node of the scoring scenario. *)
Definition bose : node :=
  {| title_el := Some "Bose Soundbar 700 Home Theater";
     price_el := Some "$180.00";
     link_el := Some (Some "https://www.ebay.com/itm/123?hash=abc");
     shipping_el := Some "Free shipping";
     condition_el := Some "New (Other)" |}.

Definition bose_listing : listing :=
  {| title := "Bose Soundbar 700 Home Theater";
     price := F64.of_decimal 18000 2;
     shipping := "Free shipping";
     condition := "New (Other)";
     link := "https://www.ebay.com/itm/123?hash=abc";
     brand_match := true;
     deal_score := 8 |}.

(** A node with a title, a price text and an anchor, nothing else. *)
Definition plain_node (t : string) (price_text : string)
    (href : option string) : node :=
  {| title_el := Some t; price_el := Some price_text; link_el := Some href;
     shipping_el := None; condition_el := None |}.

(** A listing with the given link, price in cents and score. *)
Definition plain_listing (lnk : string) (cents : Z) (s : Z) : listing :=
  {| title := "Speaker set"; price := F64.of_decimal cents 2;
     shipping := "N/A"; condition := "N/A"; link := lnk;
     brand_match := false; deal_score := s |}.

End Sample.

(** ** A run seen from outside *)

Module Run.
Import Scraper.

(** The nodes of the pages that were fetched, in page order; a failed fetch
    has none. *)
Definition nodes_of (pages : list fetch) : list node :=
  concat (map (fun f => match f with
                        | Page items => items
                        | RequestException => []
                        end) pages).

(** The listing [scrape_item] builds for a node, if it builds one. *)
Definition listing_of (item : node) : option listing :=
  match scrape_item item with
  | Ok r => r
  | Raise _ => None
  end.

(** [scrape_item] gets through the node without an exception. *)
Definition passes (item : node) : bool :=
  match scrape_item item with
  | Ok _ => true
  | Raise _ => false
  end.

#[global] Instance spec_float_eq_dec : EqDecision spec_float.
Proof. solve_decision. Defined.

(** [a] and [b] are in the order of the sort: [b]'s key is not below
    [a]'s. *)
Definition in_order (a b : listing) : Prop :=
  key_lt (sort_key b) (sort_key a) = false.

End Run.

(** ** The search URL *)

Module Urls.

(** [str(n)] of an [int]: its decimal digits, a minus sign in front of a
    negative one. *)
Definition str_int (n : Z) : string :=
  DecimalString.NilZero.string_of_int (Z.to_int n).

(** The UTF-8 bytes of a code point below 256: itself below 128, two bytes
    from there on. *)
Definition utf8 (c : ascii) : list ascii :=
  let n := Str.code c in
  if n <? 128 then [c]
  else [ascii_of_N (Z.to_N (192 + n / 64)); ascii_of_N (Z.to_N (128 + n mod 64))].

(** [string.encode("utf-8")]. *)
Definition encode (s : string) : list ascii :=
  flat_map utf8 (list_ascii_of_string s).

(** The bytes [quote] never escapes (Python 3.7 and later, where the tilde
    is among them). *)
Definition ALWAYS_SAFE : string :=
  "ABCDEFGHIJKLMNOPQRSTUVWXYZabcdefghijklmnopqrstuvwxyz0123456789_.-~".

Definition hex_digit (n : Z) : ascii :=
  match String.get (Z.to_nat n) "0123456789ABCDEF" with
  | Some c => c
  | None => "0"%char
  end.

(** ['%{:02X}'.format(b)]. *)
Definition percent (b : ascii) : string :=
  String "%" (String (hex_digit (Str.code b / 16))
             (String (hex_digit (Str.code b mod 16)) EmptyString)).

(** [quote_from_bytes(bs, safe)]: a byte among the always safe ones or in
    [safe] stands for itself, any other is escaped. *)
Fixpoint quote_from_bytes (bs : list ascii) (safe : string) : string :=
  match bs with
  | [] => EmptyString
  | b :: bs' =>
      (if Str.any (Ascii.eqb b) (ALWAYS_SAFE ++ safe)
       then String b EmptyString else percent b)
      ++ quote_from_bytes bs' safe
  end.

(** [quote(string, safe)] of a [str]. *)
Definition quote (s : string) (safe : string) : string :=
  quote_from_bytes (encode s) safe.

(** [s.replace(old, new)] for one-character [old] and [new]. *)
Fixpoint replace_char (old new : ascii) (s : string) : string :=
  match s with
  | EmptyString => EmptyString
  | String c s' =>
      String (if Ascii.eqb c old then new else c) (replace_char old new s')
  end.

(** [quote_plus(string)]: without a blank in the text it is [quote]; with
    one, blanks are kept by [quote] and then turned into plus signs. *)
Definition quote_plus (s : string) : string :=
  if Str.any (Ascii.eqb " ") s
  then replace_char " " "+" (quote s " ")
  else quote s EmptyString.

Definition MAX_PRICE : Z := 500.
Definition MIN_PRICE : Z := 50.

Definition build_url (query : string) (page : Z) : string :=
  let encoded := quote_plus query in
  "https://www.ebay.com/sch/i.html?_nkw=" ++ encoded ++
  "&_sacat=0&LH_BIN=1&_sop=15&_pgn=" ++ str_int page ++
  "&_udlo=" ++ str_int MIN_PRICE ++ "&_udhi=" ++ str_int MAX_PRICE ++
  "&rt=nc&LH_ItemCondition=1000|1500|2000|2500|3000".

Definition SEARCH_QUERIES : list string :=
  [ "surround sound speaker system 5.1";
    "surround sound speaker set 7.1";
    "home theater speaker system";
    "surround sound speaker package high end" ].

(** The URLs [scrape_listings(query, max_pages)] requests, in order: one
    for each page of [range(1, max_pages + 1)]. *)
Definition requests_of (query : string) (max_pages : Z) : list string :=
  build_url query <$> seqZ 1 max_pages.

(** The URLs a run requests: two pages for each query in turn. *)
Definition requests (queries : list string) : list string :=
  queries ≫= (fun query => requests_of query 2).

(** What [quote_plus] makes of one character: a plus sign of a blank, the
    character itself or the escapes of its bytes of any other. *)
Definition quote_char (c : ascii) : string :=
  if Ascii.eqb c " " then "+" else quote_from_bytes (utf8 c) EmptyString.

Fixpoint quote_chars (s : string) : string :=
  match s with
  | EmptyString => EmptyString
  | String c s' => quote_char c ++ quote_chars s'
  end.

(** The characters a quoted text is made of. *)
Definition url_safe (c : ascii) : bool :=
  Str.any (Ascii.eqb c) (ALWAYS_SAFE ++ "+%").

(** One character of a quoted text read back: a plus sign is a blank, an
    escape is its byte, two escapes from 0xC0 on are the code point they
    encode, any other character is itself. *)
Definition unhex (c : ascii) : Z :=
  let n := Str.code c in
  if n <? 58 then n - 48 else n - 55.

Definition unquote_step (s : string) : option (ascii * string) :=
  match s with
  | EmptyString => None
  | String "+" r => Some (" "%char, r)
  | String "%" (String h1 (String h2 r)) =>
      let b := 16 * unhex h1 + unhex h2 in
      if b <? 128 then Some (ascii_of_N (Z.to_N b), r)
      else
        match r with
        | String "%" (String h3 (String h4 r')) =>
            let b' := 16 * unhex h3 + unhex h4 in
            Some (ascii_of_N (Z.to_N ((b - 192) * 64 + (b' - 128))), r')
        | _ => None
        end
  | String c r => Some (c, r)
  end.

End Urls.

(** ** Paths, as [posixpath] handles them *)

Module Path.

(** [s.split(c)]. *)
Fixpoint split (c : ascii) (s : string) : list string :=
  match s with
  | EmptyString => [EmptyString]
  | String a s' =>
      if Ascii.eqb a c then EmptyString :: split c s'
      else match split c s' with
           | x :: xs => String a x :: xs
           | [] => [String a EmptyString]
           end
  end.

(** ["/".join(comps)]. *)
Fixpoint join_sep (comps : list string) : string :=
  match comps with
  | [] => EmptyString
  | [x] => x
  | x :: xs => x ++ "/" ++ join_sep xs
  end.

(** [s.endswith(suffix)]. *)
Fixpoint endswith (suffix s : string) : bool :=
  String.eqb s suffix ||
  match s with
  | EmptyString => false
  | String _ s' => endswith suffix s'
  end.

(** [os.path.join(a, b)]. *)
Definition join2 (a b : string) : string :=
  if Str.startswith "/" b then b
  else if String.eqb a "" || endswith "/" a then a ++ b
  else a ++ "/" ++ b.

(** [os.path.join(a, *ps)]. *)
Definition join (a : string) (ps : list string) : string := fold_left join2 ps a.

Definition isabs (s : string) : bool := Str.startswith "/" s.

(** One round of the loop of [normpath] over the components. *)
Definition norm_step (initial_slashes : nat) (new_comps : list string)
    (comp : string) : list string :=
  if String.eqb comp "" || String.eqb comp "." then new_comps
  else if negb (String.eqb comp "..")
          || (Nat.eqb initial_slashes 0 && bool_decide (new_comps = []))
          || (negb (bool_decide (new_comps = []))
              && bool_decide (last new_comps = Some ".."))
  then new_comps ++ [comp]
  else removelast new_comps.

Definition normpath (path : string) : string :=
  if String.eqb path "" then "."
  else
    let initial_slashes :=
      if Str.startswith "/" path
      then if Str.startswith "//" path && negb (Str.startswith "///" path)
           then 2%nat else 1%nat
      else 0%nat in
    let comps := fold_left (norm_step initial_slashes) (split "/" path) [] in
    let path := join_sep comps in
    let path :=
      match initial_slashes with
      | O => path
      | 1%nat => "/" ++ path
      | _ => "//" ++ path
      end in
    if String.eqb path "" then "." else path.

(** [os.path.abspath(path)] in the working directory [cwd]. *)
Definition abspath (cwd path : string) : string :=
  normpath (if isabs path then path else join2 cwd path).

(** [os.path.commonprefix] of two lists: their longest common prefix. *)
Fixpoint commonprefix (l1 l2 : list string) : list string :=
  match l1, l2 with
  | x :: l1', y :: l2' => if String.eqb x y then x :: commonprefix l1' l2' else []
  | _, _ => []
  end.

(** [os.path.relpath(path, start)] in the working directory [cwd]. *)
Definition relpath (cwd path start : string) : result string :=
  if String.eqb path "" then Raise ValueError
  else
    let start_list :=
      filter (fun x => x <> EmptyString) (split "/" (abspath cwd start)) in
    let path_list :=
      filter (fun x => x <> EmptyString) (split "/" (abspath cwd path)) in
    let i := length (commonprefix start_list path_list) in
    let rel_list :=
      (replicate (length start_list - i) ".." ++ drop i path_list)%list in
    match rel_list with
    | [] => Ok "."
    | a :: ps => Ok (join a ps)
    end.

End Path.

(** ** The sitemap generator *)

Module Sitemap.

Definition SITE_URL : string := "https://oxidize-rb.github.io/rb-sys".
Definition BOOK_DIR : string := "book".
Definition OUTPUT_DIR : string := Path.join2 BOOK_DIR "html".
Definition CHANGE_FREQ : string := "weekly".
Definition PRIORITY : string := "0.8".

(** A [url] element with the texts of its four children. *)
Record url_element : Type := {
  loc : string;
  lastmod : string;
  changefreq : string;
  priority : string
}.

(** The test a file name has to pass. *)
Definition listed (file : string) : bool :=
  Path.endswith ".html" file && negb (String.eqb file "404.html")
  && negb (String.eqb file "print.html").

(** The body of the inner loop for one file of the directory [root]:
    [Ok None] when the file is passed over. *)
Definition visit (cwd today root file : string) : result (option url_element) :=
  if listed file then
    rel_path ← Path.relpath cwd (Path.join2 root file) OUTPUT_DIR;
    let rel_path := Urls.replace_char "\" "/" rel_path in
    let url :=
      if String.eqb rel_path "index.html" then SITE_URL
      else SITE_URL ++ "/" ++ rel_path in
    Ok (Some {| loc := url; lastmod := today;
                changefreq := CHANGE_FREQ; priority := PRIORITY |})
  else Ok None.

(** The loop over the files of one directory, threading the children of
    [urlset]. *)
Fixpoint visit_files (cwd today root : string) (files : list string)
    (urlset : list url_element) : result (list url_element) :=
  match files with
  | [] => Ok urlset
  | file :: rest =>
      r ← visit cwd today root file;
      visit_files cwd today root rest
        (match r with Some u => (urlset ++ [u])%list | None => urlset end)
  end.

(** The loop over what [os.walk(OUTPUT_DIR)] yields: each directory with
    its files. *)
Fixpoint visit_dirs (cwd today : string) (walk : list (string * list string))
    (urlset : list url_element) : result (list url_element) :=
  match walk with
  | [] => Ok urlset
  | (root, files) :: rest =>
      urlset' ← visit_files cwd today root files urlset;
      visit_dirs cwd today rest urlset'
  end.

(** The children of [urlset] when [generate_sitemap] serialises it, for the
    working directory, the date and the directory walk it finds. *)
Definition generate_sitemap (cwd today : string)
    (walk : list (string * list string)) : result (list url_element) :=
  visit_dirs cwd today walk [].


(** What a [url] element of the sitemap looks like. *)
Definition well_formed (today : string) (u : url_element) : Prop :=
  lastmod u = today /\ changefreq u = "weekly" /\ priority u = "0.8" /\
  (loc u = SITE_URL \/ exists rel, loc u = SITE_URL ++ "/" ++ rel) /\
  Str.any (fun c => Ascii.eqb c "\") (loc u) = false.





End Sitemap.

(** * Properties *)

(** ** Strings *)

Section StrFacts.
Import Str.

Lemma span_split p s a b :
  span p s = (a, b) -> s = a ++ b /\ all p a = true.
Proof.
  revert a b. induction s as [|c s IH]; simpl; intros a b H.
  - by inversion H.
  - destruct (p c) eqn:Hc.
    + destruct (span p s) as [a' b'] eqn:Hs. inversion H; subst.
      destruct (IH _ _ eq_refl) as [-> Ha]. simpl. by rewrite Hc, Ha.
    + by inversion H.
Qed.

Lemma span_stops p s a b : span p s = (a, b) -> stops p b.
Proof.
  revert a b. induction s as [|c s IH]; simpl; intros a b H.
  - by inversion H.
  - destruct (p c) eqn:Hc.
    + destruct (span p s) as [a' b'] eqn:Hs. inversion H; subst. eauto.
    + inversion H; subst. exact Hc.
Qed.

Lemma span_all p a b : all p a = true -> stops p b -> span p (a ++ b) = (a, b).
Proof.
  intros Ha Hb. induction a as [|c a IH]; simpl in *.
  - destruct b as [|c b]; simpl in *; [done|]. by rewrite Hb.
  - apply andb_true_iff in Ha as [Hc Ha]. by rewrite Hc, (IH Ha).
Qed.

Lemma span_all_nil p a : all p a = true -> span p a = (a, EmptyString).
Proof.
  intros Ha. induction a as [|c a IH]; simpl in *; [done|].
  apply andb_true_iff in Ha as [Hc Ha]. by rewrite Hc, (IH Ha).
Qed.

Lemma app_nil_r_str (s : string) : s ++ "" = s.
Proof. induction s; simpl; congruence. Qed.

Lemma app_assoc_str (a b c : string) : (a ++ b) ++ c = a ++ b ++ c.
Proof. induction a; simpl; congruence. Qed.

Lemma all_app p a b : all p (a ++ b) = all p a && all p b.
Proof. induction a as [|c a IH]; simpl; [done|]. by rewrite IH, andb_assoc. Qed.

Lemma remove_app c a b : remove c (a ++ b) = remove c a ++ remove c b.
Proof.
  induction a as [|x a IH]; simpl; [done|].
  destruct (Ascii.eqb x c); simpl; congruence.
Qed.

Lemma remove_id p c s :
  p c = false -> all p s = true -> remove c s = s.
Proof.
  intros Hc. induction s as [|x s IH]; simpl; [done|].
  intros [Hx Hs]%andb_true_iff.
  destruct (Ascii.eqb_spec x c) as [->|_]; [congruence|]. by rewrite IH.
Qed.

Lemma is_digit_or_comma_split c :
  is_digit_or_comma c = true -> is_digit c = true \/ c = ","%char.
Proof.
  unfold is_digit_or_comma. intros [H|H]%orb_true_iff; [by left|right].
  by apply Ascii.eqb_eq.
Qed.

Lemma remove_comma_digits s :
  all is_digit_or_comma s = true -> all is_digit (remove "," s) = true.
Proof.
  induction s as [|x s IH]; simpl; [done|].
  intros [Hx Hs]%andb_true_iff.
  destruct (Ascii.eqb_spec x ",") as [->|Hne]; [by apply IH|].
  simpl. destruct (is_digit_or_comma_split _ Hx) as [->|]; [by apply IH|done].
Qed.

Lemma any_remove_comma s :
  any is_digit (remove "," s) = any is_digit s.
Proof.
  induction s as [|x s IH]; simpl; [done|].
  destruct (Ascii.eqb_spec x ",") as [->|Hne]; simpl; by rewrite IH.
Qed.

Lemma all_digit_any s :
  all is_digit s = true -> any is_digit s = negb (String.length s =? 0)%nat.
Proof.
  destruct s as [|c s]; simpl; [done|]. by intros [-> _]%andb_true_iff.
Qed.

Lemma any_app p a b : any p (a ++ b) = any p a || any p b.
Proof. induction a as [|c a IH]; simpl; [done|]. by rewrite IH, orb_assoc. Qed.

End StrFacts.

(** ** The price pattern *)

Section ReFacts.
Import Str Re.

(** A starred class before a continuation that never fails takes the
    whole run of the class: the matcher never backs off. *)
Lemma star_class_span p next s :
  (forall t, is_Some (next t)) ->
  star (Class p) next s =
    (fun m => (span p s).1 ++ m) <$> next (span p s).2.
Proof.
  intros Hnext. induction s as [|c s IH]; simpl.
  - by destruct (next "").
  - destruct (p c) eqn:Hc.
    + rewrite IH. destruct (span p s) as [a b]. simpl.
      destruct (Hnext b) as [m ->]. done.
    + simpl. by destruct (next (String c s)).
Qed.

(** The matcher settles on the greedy match of the price pattern. *)
Lemma match_here_greedy s : match_here s = greedy_match s.
Proof.
  unfold match_here, PRICE_PATTERN. cbn [match_seq].
  set (k3 := star (Class is_digit) (fun _ => Some "")).
  assert (forall t, k3 t = Some (span is_digit t).1) as H3.
  { intros t. subst k3. rewrite star_class_span by eauto. simpl.
    by rewrite app_nil_r_str. }
  set (k2 := fun t => match one (Lit ".") k3 t with
                      | Some m => Some m
                      | None => k3 t
                      end).
  assert (forall t, k2 t =
            Some (match t with
                  | String "." u => "." ++ (span is_digit u).1
                  | _ => (span is_digit t).1
                  end)) as H2.
  { intros t. subst k2. unfold one. destruct t as [|c t]; [by rewrite H3|].
    simpl. destruct (Ascii.eqb_spec c ".") as [->|Hc].
    - by rewrite H3.
    - rewrite H3. destruct c as [[] [] [] [] [] [] [] []]; done. }
  assert (forall t, star (Class is_digit_or_comma) k2 t =
            (fun m => (span is_digit_or_comma t).1 ++ m)
              <$> k2 (span is_digit_or_comma t).2) as H1.
  { intros t. apply star_class_span. intros u. rewrite H2. eauto. }
  unfold greedy_match, one. destruct s as [|c s1]; [done|]. simpl.
  destruct (Ascii.eqb_spec c "$") as [->|Hc]; cycle 1.
  { destruct c as [[] [] [] [] [] [] [] []]; done. }
  destruct s1 as [|b0 s1]; [done|]. simpl.
  destruct (is_digit_or_comma b0) eqn:Hb0; [|done].
  rewrite H1, H2. destruct (span is_digit_or_comma s1) as [body s2]. simpl.
  destruct s2 as [|d s2].
  - simpl. by rewrite app_nil_r_str.
  - destruct (Ascii.eqb_spec d ".") as [->|Hd].
    + by destruct (span is_digit s2).
    + destruct d as [[] [] [] [] [] [] [] []]; try done;
        by destruct (span is_digit _).
Qed.

(** A successful attempt matches a prefix of the text, of the shape the
    pattern prescribes; without a point there is no fraction. *)
Lemma match_here_shape s m :
  match_here s = Some m ->
  exists body dot frac rest,
    s = m ++ rest /\ m = "$" ++ body ++ dot ++ frac /\
    body <> "" /\ all is_digit_or_comma body = true /\
    all is_digit frac = true /\
    (dot = "." \/ (dot = "" /\ frac = "")).
Proof.
  rewrite match_here_greedy. unfold greedy_match. destruct s as [|c s1]; [done|].
  destruct (Ascii.eqb_spec c "$") as [->|Hc]; cycle 1.
  { destruct c as [[] [] [] [] [] [] [] []]; try done. }
  destruct (span is_digit_or_comma s1) as [body s2] eqn:Hb.
  apply span_split in Hb as Hb'. destruct Hb' as [-> Hbody].
  apply span_stops in Hb as Hstop.
  destruct body as [|b0 body]; [done|].
  assert (Hdot : exists dot s3,
    match s2 with String "." t => (".", t) | _ => ("", s2) end = (dot, s3) /\
    s2 = dot ++ s3 /\
    (dot = "." \/ (dot = "" /\ stops is_digit s3 /\ s3 = s2))).
  { destruct s2 as [|d s2]; [by exists "", ""; repeat split; right|].
    destruct (Ascii.eqb_spec d ".") as [->|Hd].
    - exists ".", s2. by repeat split; left.
    - exists "", (String d s2). split.
      + destruct d as [[] [] [] [] [] [] [] []]; done.
      + split; [done|]. right. split; [done|]. split; [|done].
        simpl in *. unfold is_digit_or_comma in Hstop.
        by apply orb_false_iff in Hstop as [? _]. }
  destruct Hdot as (dot & s3 & -> & -> & Hdot).
  destruct (span is_digit s3) as [frac s4] eqn:Hf.
  apply span_split in Hf as Hf'. destruct Hf' as [-> Hfrac].
  intros [= <-]. exists (String b0 body), dot, frac, s4.
  repeat split; try done.
  - simpl. f_equal. by rewrite !app_assoc_str.
  - destruct Hdot as [?|(-> & Hs & _)]; [by left|right]. split; [done|].
    destruct frac as [|f frac]; [done|]. simpl in *.
    apply andb_true_iff in Hfrac as [Hf1 _]. congruence.
Qed.

Lemma match_here_amount s m : match_here s = Some m -> amount m.
Proof.
  intros (body & dot & frac & rest & _ & -> & ? & ? & ? & Hd)%match_here_shape.
  constructor; try done. destruct Hd as [->|[-> _]]; auto.
Qed.

(** The attempt succeeds wherever some text of the pattern starts. *)
Lemma match_here_complete m rest :
  amount m -> is_Some (match_here (m ++ rest)).
Proof.
  intros [body dot frac Hne Hbody _ _]. rewrite match_here_greedy. simpl.
  destruct body as [|b0 body]; [done|]. simpl in *.
  apply andb_true_iff in Hbody as [Hb0 _]. rewrite Hb0.
  destruct (span is_digit_or_comma _) as [b s2].
  destruct (match s2 with String "." t => (".", t) | _ => ("", s2) end) as [d s3].
  by destruct (span is_digit s3).
Qed.

(** [findall] finds nothing exactly when no attempt succeeds anywhere; its
    first element is the match of the leftmost successful attempt. *)
Lemma findall_head s :
  match findall s with
  | [] => forall pre suf, s = pre ++ suf -> match_here suf = None
  | m :: _ =>
      exists pre rest,
        s = pre ++ m ++ rest /\ match_here (m ++ rest) = Some m /\
        forall p1 p2, pre = p1 ++ p2 -> p2 <> "" ->
                      match_here (p2 ++ m ++ rest) = None
  end.
Proof.
  unfold findall. induction s as [|c s IH].
  - simpl. intros [|? ?] suf; [|done]. simpl. by intros <-.
  - cbn [findall_from]. destruct (match_here (String c s)) as [m|] eqn:Hm.
    + destruct (match_here_shape _ _ Hm) as (_ & _ & _ & rest & Hs & _).
      exists "", rest. split; [done|]. split; [by rewrite <- Hs|].
      intros [|? ?] p2; [|done]. simpl. by intros <-.
    + destruct (findall_from 0 s) as [|m ms].
      * intros [|a pre] suf; simpl.
        -- by intros <-.
        -- intros [= _ ->]. by eapply IH.
      * destruct IH as (pre & rest & -> & Hm' & Hleft).
        exists (String c pre), rest. split; [done|]. split; [done|].
        intros [|a p1] p2; simpl.
        -- intros <- _. exact Hm.
        -- intros [= _ ->]. by apply (Hleft p1).
Qed.

(** [findall] is empty exactly on the texts without an amount. *)
Lemma findall_nil_iff text : findall text = [] <-> ~ has_amount text.
Proof.
  pose proof (findall_head text) as H. split.
  - intros E. rewrite E in H. intros (pre & m & suf & -> & Hm).
    destruct (match_here_complete m suf Hm) as [m' Hm'].
    by rewrite (H pre (m ++ suf)) in Hm'.
  - intros Hno. destruct (findall text) as [|m ms]; [done|].
    destruct H as (pre & rest & -> & Hm & _). destruct Hno.
    exists pre, m, rest. eauto using match_here_amount.
Qed.

End ReFacts.

(** ** [float] and [parse_price] *)

Section PriceFacts.
Import Str Re Scraper.

(** [float] on a plain decimal: the value its digits spell, scaled by the
    number of digits after the point; [ValueError] when it has no digit. *)
Lemma float_plain ip dot fp :
  all is_digit ip = true -> all is_digit fp = true ->
  dot = "." \/ (dot = "" /\ fp = "") ->
  Py.float (ip ++ dot ++ fp) =
    if any is_digit (ip ++ fp)
    then Ok (F64.of_decimal (Py.digits_value (ip ++ fp)) (String.length fp))
    else Raise ValueError.
Proof.
  intros Hip Hfp Hdot. unfold Py.float.
  assert (Hany : any is_digit (ip ++ fp) =
                 negb (String.length ip + String.length fp =? 0)%nat).
  { rewrite any_app, !all_digit_any by done.
    destruct ip, fp; simpl; done. }
  rewrite Hany. destruct Hdot as [->|[-> ->]].
  - rewrite (span_all is_digit ip ("." ++ fp)) by done. simpl.
    rewrite (span_all_nil is_digit fp) by done.
    destruct (Nat.eqb _ _); reflexivity.
  - simpl. rewrite !app_nil_r_str, (span_all_nil is_digit ip) by done.
    rewrite !app_nil_r_str. destruct (Nat.eqb _ _); reflexivity.
Qed.

(** What [parse_price] hands to [float]: the match without its dollar sign
    and commas, which is the digits of the body, the point, the fraction. *)
Lemma strip_amount body dot frac :
  all is_digit_or_comma body = true -> all is_digit frac = true ->
  dot = "." \/ (dot = "" /\ frac = "") ->
  remove "," (remove "$" ("$" ++ body ++ dot ++ frac)) =
  remove "," body ++ dot ++ frac.
Proof.
  intros Hbody Hfrac Hdot. simpl.
  rewrite !remove_app.
  rewrite (remove_id is_digit_or_comma "$" body) by done.
  rewrite (remove_id is_digit "$" frac), (remove_id is_digit "," frac) by done.
  by destruct Hdot as [->|[-> _]].
Qed.

Lemma stripped_match_is_plain_decimal s m :
  match_here s = Some m -> Py.plain_decimal (remove "," (remove "$" m)).
Proof.
  intros (body & dot & frac & rest & _ & -> & _ & Hb & Hf & Hd)%match_here_shape.
  exists (remove "," body), dot, frac.
  rewrite strip_amount by done. eauto using remove_comma_digits.
Qed.

(** [parse_price] by the first element of [findall]: it is an amount
    [$ body dot frac]; with a digit in it the result is the number the
    digits of [body] and [frac] spell, the point before [frac]; with none
    (a body of commas only and no fraction) [float] raises. *)
Lemma parse_price_first text m ms :
  findall text = m :: ms ->
  exists body dot frac,
    m = "$" ++ body ++ dot ++ frac /\
    all is_digit_or_comma body = true /\ all is_digit frac = true /\
    parse_price text =
      if any is_digit m
      then Ok (Some (F64.of_decimal (Py.digits_value (remove "," body ++ frac))
                                    (String.length frac)))
      else Raise ValueError.
Proof.
  intros Hfind. pose proof (findall_head text) as H. rewrite Hfind in H.
  destruct H as (pre & rest & _ & Hm & _).
  destruct (match_here_shape _ _ Hm) as (body & dot & frac & _ & _ & -> & _ & Hb & Hf & Hd).
  exists body, dot, frac. repeat split; try done.
  unfold parse_price. rewrite Hfind. cbv zeta.
  rewrite strip_amount, float_plain by eauto using remove_comma_digits.
  assert (any is_digit ("$" ++ body ++ dot ++ frac) =
          any is_digit (remove "," body ++ frac)) as ->.
  { simpl. rewrite !any_app, any_remove_comma.
    by destruct Hd as [->|[-> ->]]. }
  by destruct (any is_digit _).
Qed.

Lemma parse_price_none text : findall text = [] -> parse_price text = Ok None.
Proof. unfold parse_price. by intros ->. Qed.

End PriceFacts.

(** ** The deal score *)

Section ScoreFacts.
Import Str Scraper Spec.

Lemma score_sum brand free p cond :
  score brand free p cond =
    (if brand then 3 else 0) + (if free then 2 else 0) +
    (if F64.ltb p (F64.of_int 200) then 2
     else if F64.ltb p (F64.of_int 350) then 1 else 0) +
    (if contains "new" (lower cond) || contains "open box" (lower cond)
     then 1 else 0).
Proof.
  unfold score. destruct brand, free, (F64.ltb p (F64.of_int 200)),
    (F64.ltb p (F64.of_int 350)), (_ || _); reflexivity.
Qed.

(** A listing that [scrape_item] builds carries the fields it was scored
    from. *)
Lemma scrape_item_fields item l :
  scrape_item item = Ok (Some l) ->
  exists text href,
    title_el item = Some (title l) /\ price_el item = Some text /\
    link_el item = Some href /\
    startswith "shop on ebay" (lower (title l)) = false /\
    parse_price text = Ok (Some (price l)) /\
    link l = default "" href /\
    shipping l = default "N/A" (shipping_el item) /\
    condition l = default "N/A" (condition_el item) /\
    brand_match l = is_quality_brand (title l) /\
    deal_score l = score (brand_match l) (contains "free" (lower (shipping l)))
                         (price l) (condition l).
Proof.
  unfold scrape_item.
  destruct (title_el item) as [t|]; [|done].
  destruct (price_el item) as [text|]; [|done].
  destruct (link_el item) as [href|]; [|done].
  destruct (startswith _ _) eqn:Hshop; [done|].
  destruct (parse_price text) as [[p|]|e] eqn:Hp; simpl; [|done..].
  intros [= <-]. simpl. exists text, href. by repeat split.
Qed.

(** C3.  The deal score of every listing the extractor builds is the sum of
    four independent contributions read off its own fields: 3 exactly when
    the lowercased title contains a brand of the allow-list (which is also
    the brand flag), 2 exactly when the lowercased shipping text contains
    "free", 2 for a price below 200 and otherwise 1 for a price below 350,
    1 exactly when the lowercased condition contains "new" or "open box".
    Hence the score lies between 0 and 8; and a Bose soundbar with free
    shipping, condition "New (Other)" and price 180.00 is a quality brand
    with score 8. *)
Theorem deal_score_is_sum_of_contributions :
  (forall item l,
     scrape_item item = Ok (Some l) ->
     brand_match l =
       existsb (fun brand => contains brand (lower (title l))) QUALITY_BRANDS /\
     deal_score l =
       brand_points l + shipping_points l + price_points l + condition_points l /\
     0 <= deal_score l <= 8) /\
  (is_quality_brand "Bose Soundbar 700 Home Theater" = true /\
   score (is_quality_brand "Bose Soundbar 700 Home Theater")
         (contains "free" (lower "Free shipping"))
         (F64.of_decimal 18000 2) "New (Other)" = 8).
Proof.
  split; [|by vm_compute].
  intros item l (text & href & _ & _ & _ & _ & _ & _ & _ & _ & Hb & Hs)%scrape_item_fields.
  split; [exact Hb|]. rewrite Hs, score_sum, Hb.
  unfold brand_points, shipping_points, price_points, condition_points,
    is_quality_brand.
  split; [reflexivity|].
  repeat case_match; lia.
Qed.

Lemma deal_score_is_sum_of_contributions_witness :
  scrape_item Sample.bose = Ok (Some Sample.bose_listing) /\
  brand_match Sample.bose_listing =
    existsb (fun brand => contains brand (lower (title Sample.bose_listing)))
            QUALITY_BRANDS /\
  deal_score Sample.bose_listing =
    brand_points Sample.bose_listing + shipping_points Sample.bose_listing +
    price_points Sample.bose_listing + condition_points Sample.bose_listing /\
  0 <= deal_score Sample.bose_listing <= 8.
Proof.
  assert (scrape_item Sample.bose = Ok (Some Sample.bose_listing)) as H
    by (vm_compute; reflexivity).
  split; [exact H|].
  exact (proj1 deal_score_is_sum_of_contributions Sample.bose Sample.bose_listing H).
Defined.

End ScoreFacts.

(** ** Binary64 comparisons and rounding *)

Section F64Facts.

Lemma SFcompare_swap x y :
  SFcompare y x = option_map CompOpp (SFcompare x y).
Proof.
  destruct x as [[]|[]| |[] mx ex], y as [[]|[]| |[] my ey]; simpl; try done.
  - rewrite (Z.compare_antisym ey ex).
    destruct (ey ?= ex); simpl; try done.
    rewrite CompOpp_involutive. f_equal.
    exact (Pos.compare_cont_antisym my mx Eq).
  - rewrite (Z.compare_antisym ey ex).
    destruct (ey ?= ex); simpl; try done.
    f_equal. symmetry. exact (Pos.compare_cont_antisym mx my Eq).
Qed.

Lemma SFcompare_is_Some x y :
  F64.is_nan x = false -> F64.is_nan y = false -> is_Some (SFcompare x y).
Proof. destruct x as [| | |[]], y as [| | |[]]; simpl; by eauto. Qed.

Lemma ltb_asym x y : F64.ltb x y = true -> F64.ltb y x = false.
Proof.
  unfold F64.ltb, SFltb. rewrite (SFcompare_swap x y).
  by destruct (SFcompare x y) as [[]|].
Qed.

Lemma eqb_sym x y : F64.eqb x y = F64.eqb y x.
Proof.
  unfold F64.eqb, SFeqb. rewrite (SFcompare_swap x y).
  by destruct (SFcompare x y) as [[]|].
Qed.

(** Between two numbers, [x <= y] is the failure of [y < x]. *)
Lemma leb_of_not_ltb x y :
  F64.is_nan x = false -> F64.is_nan y = false ->
  F64.ltb y x = false -> F64.leb x y = true.
Proof.
  intros Hx Hy. unfold F64.ltb, F64.leb, SFltb, SFleb.
  rewrite (SFcompare_swap x y).
  destruct (SFcompare_is_Some x y Hx Hy) as [c ->]. by destruct c.
Qed.

Lemma leb_of_eqb x y : F64.eqb x y = true -> F64.leb x y = true.
Proof. unfold F64.eqb, F64.leb, SFeqb, SFleb. by destruct (SFcompare x y) as [[]|]. Qed.

(** Rounding a non-negative mantissa never yields a NaN. *)
Lemma iter_pos_invariant {A} (P : A -> Prop) (f : A -> A) n x :
  (forall y, P y -> P (f y)) -> P x -> P (SpecFloat.iter_pos f n x).
Proof.
  intros Hf. revert x. induction n as [n IH|n IH|]; simpl; intros x Hx; auto.
Qed.

Lemma shr_1_nonneg mrs : 0 <= shr_m mrs -> 0 <= shr_m (shr_1 mrs).
Proof. destruct mrs as [[|[]|[]] r s]; simpl; lia. Qed.

Lemma shr_nonneg mrs e n : 0 <= shr_m mrs -> 0 <= shr_m (shr mrs e n).1.
Proof.
  intros H. destruct n; simpl; try done.
  apply (iter_pos_invariant (fun r => 0 <= shr_m r)); auto using shr_1_nonneg.
Qed.

Lemma shr_fexp_nonneg m e l :
  0 <= m -> 0 <= shr_m (shr_fexp F64.prec F64.emax m e l).1.
Proof.
  intros H. unfold shr_fexp. apply shr_nonneg. by destruct l as [|[]].
Qed.

Lemma round_nearest_even_nonneg m l : 0 <= m -> 0 <= round_nearest_even m l.
Proof. destruct l as [|[]]; simpl; try lia. destruct (Z.even m); lia. Qed.

Lemma binary_round_aux_not_nan s m e l :
  0 <= m -> F64.is_nan (binary_round_aux F64.prec F64.emax s m e l) = false.
Proof.
  intros H. unfold binary_round_aux.
  pose proof (shr_fexp_nonneg m e l H) as H1.
  destruct (shr_fexp F64.prec F64.emax m e l) as [mrs' e']. simpl in H1.
  pose proof (shr_fexp_nonneg _ e' loc_Exact
                (round_nearest_even_nonneg _ (loc_of_shr_record mrs') H1)) as H2.
  destruct (shr_fexp F64.prec F64.emax _ e' loc_Exact) as [mrs'' e'']. simpl in H2.
  destruct (shr_m mrs''); [done| |lia]. by destruct (_ <=? _).
Qed.

Lemma SFdiv_core_nonneg m1 e1 m2 e2 :
  0 <= m1 -> 0 < m2 ->
  0 <= (SFdiv_core_binary F64.prec F64.emax m1 e1 m2 e2).1.1.
Proof.
  intros H1 H2. unfold SFdiv_core_binary.
  set (s := e1 - e2 - _).
  set (m' := match s with 0 => m1 | Z.pos _ => Z.shiftl m1 s | Z.neg _ => 0 end).
  assert (0 <= m') as Hm'.
  { subst m'. destruct s; try lia. by apply Z.shiftl_nonneg. }
  pose proof (Z.div_pos m' m2 Hm' H2) as Hq. unfold Z.div in Hq.
  by destruct (Z.div_eucl m' m2) as [q r].
Qed.

Lemma of_decimal_not_nan m k : 0 <= m -> F64.is_nan (F64.of_decimal m k) = false.
Proof.
  intros H. destruct m as [|p|p]; [done| |lia].
  unfold F64.of_decimal, SFdiv.
  pose proof (SFdiv_core_nonneg (Z.pos p) 0 (Z.pos (F64.pow10 k)) 0) as Hq.
  destruct (SFdiv_core_binary _ _ _ _ _ _) as [[mz ez] lz].
  apply binary_round_aux_not_nan. apply Hq; lia.
Qed.

End F64Facts.

(** ** Parsed prices are numbers *)

Section NumericFacts.
Import Str Re Scraper.

Lemma digits_value_nonneg s : all is_digit s = true -> 0 <= Py.digits_value s.
Proof.
  unfold Py.digits_value.
  assert (forall v, 0 <= v -> all is_digit s = true ->
    0 <= fold_left (fun v c => 10 * v + (code c - 48)) (list_ascii_of_string s) v)
    as H; [|by apply H].
  induction s as [|c s IH]; simpl; intros v Hv; [done|].
  intros [Hc Hs]%andb_true_iff. apply IH; [|done].
  unfold is_digit in Hc. lia.
Qed.

Lemma parse_price_numeric text p :
  parse_price text = Ok (Some p) -> F64.is_nan p = false.
Proof.
  intros Hp. destruct (findall text) as [|m ms] eqn:Hfind.
  { by rewrite parse_price_none in Hp. }
  destruct (parse_price_first _ _ _ Hfind) as (body & dot & frac & _ & Hb & Hf & Hv).
  rewrite Hv in Hp. destruct (any is_digit m); [|done].
  injection Hp as <-. apply of_decimal_not_nan, digits_value_nonneg.
  rewrite all_app, Hf. by rewrite remove_comma_digits.
Qed.

End NumericFacts.

(** ** The ranking *)

Section SortFacts.
Import Scraper Spec.

Lemma key_lt_asym a b : key_lt a b = true -> key_lt b a = false.
Proof.
  unfold key_lt. destruct a as [sa pa], b as [sb pb]; simpl.
  destruct (Z.eqb_spec sa sb) as [->|Hne]; simpl.
  - rewrite Z.eqb_refl. simpl. rewrite (eqb_sym pb pa).
    destruct (F64.eqb pa pb); simpl; [done|]. apply ltb_asym.
  - destruct (Z.eqb_spec sb sa) as [->|_]; [done|]. simpl. lia.
Qed.

(** Two numerically priced listings of which the second is not below the
    first under the sort key are in ranking order. *)
Lemma not_key_lt_ranked a b :
  numeric a -> numeric b ->
  key_lt (sort_key b) (sort_key a) = false -> ranked_before a b.
Proof.
  unfold numeric, key_lt, sort_key, ranked_before. simpl. intros Ha Hb.
  destruct (Z.eqb_spec (- deal_score b) (- deal_score a)) as [E|E]; simpl.
  - intros H. split; [lia|]. intros _.
    destruct (F64.eqb (price b) (price a)) eqn:Heq; simpl in H.
    + apply leb_of_eqb. by rewrite eqb_sym.
    + by apply leb_of_not_ltb.
  - intros H. split; lia.
Qed.

Lemma insert_sorted_perm x ys : insert_sorted x ys ≡ₚ x :: ys.
Proof.
  induction ys as [|y ys IH]; simpl; [done|].
  destruct (key_lt _ _); [|done]. rewrite IH. apply Permutation_swap.
Qed.

Lemma sort_perm xs : sort xs ≡ₚ xs.
Proof.
  induction xs as [|x xs IH]; simpl; [done|].
  by rewrite insert_sorted_perm, IH.
Qed.

(** The sort is stable: listings with the same key keep their order. *)
Lemma insert_sorted_filter (P : listing -> Prop) `{forall l, Decision (P l)} x ys :
  (forall y, P x -> P y -> key_lt (sort_key y) (sort_key x) = false) ->
  filter P (insert_sorted x ys) = filter P (x :: ys).
Proof.
  intros HP. induction ys as [|y ys IH]; simpl; [done|].
  destruct (key_lt (sort_key y) (sort_key x)) eqn:Hlt; [|done].
  rewrite (filter_cons P y), IH, !(filter_cons P x), (filter_cons P y).
  destruct (decide (P x)) as [Hx|Hx]; [|done].
  destruct (decide (P y)) as [Hy|Hy]; [|done].
  by rewrite (HP y Hx Hy) in Hlt.
Qed.

Lemma sort_stable (k : Z * spec_float) `{EqDecision (Z * spec_float)} xs :
  filter (fun l => sort_key l = k) (sort xs) =
  filter (fun l => sort_key l = k) xs.
Proof.
  induction xs as [|x xs IH]; simpl; [done|].
  rewrite insert_sorted_filter, !filter_cons, IH; [done|].
  intros y -> <-. destruct (key_lt (sort_key y) (sort_key y)) eqn:E; [|done].
  by rewrite (key_lt_asym _ _ E) in E.
Qed.

Lemma insert_sorted_HdRel (R : relation listing) x y ys :
  R y x -> HdRel R y ys -> HdRel R y (insert_sorted x ys).
Proof.
  intros Hyx Hys. destruct ys as [|z ys]; simpl; [by constructor|].
  inversion_clear Hys. destruct (key_lt _ _); by constructor.
Qed.

Lemma insert_sorted_Sorted x ys :
  numeric x -> Forall numeric ys ->
  Sorted ranked_before ys -> Sorted ranked_before (insert_sorted x ys).
Proof.
  intros Hx Hys Hsorted. induction Hsorted as [|y ys Hs IH Hhd]; simpl.
  - repeat constructor.
  - apply Forall_cons in Hys as [Hy Hys].
    destruct (key_lt (sort_key y) (sort_key x)) eqn:Hlt.
    + constructor; [by apply IH|]. apply insert_sorted_HdRel; [|done].
      by apply not_key_lt_ranked, key_lt_asym.
    + constructor; [by constructor|]. constructor. by apply not_key_lt_ranked.
Qed.

Lemma sort_Sorted xs : Forall numeric xs -> Sorted ranked_before (sort xs).
Proof.
  induction xs as [|x xs IH]; simpl; [constructor|].
  intros [Hx Hxs]%Forall_cons. apply insert_sorted_Sorted; auto.
  by rewrite sort_perm.
Qed.

Lemma Sorted_adjacent {A} (R : relation A) l i a b :
  Sorted R l -> l !! i = Some a -> l !! S i = Some b -> R a b.
Proof.
  intros Hs. revert i. induction Hs as [|x l Hs IH Hhd]; intros i; [done|].
  destruct i as [|i]; simpl.
  - intros [= ->] Hb. destruct Hhd as [|y l Hxy]; [done|].
    simpl in Hb. by injection Hb as ->.
  - apply IH.
Qed.

(** C4.  In the output of the ranker every listing and its successor are in
    ranking order: the first has a score at least as high, and on equal
    scores a price at most as high; the sequence ascends in the key
    (-score, price).  Prices are numbers, as every parsed price is. *)
Theorem ranked_output_is_sorted xs :
  Forall numeric xs ->
  forall i a b,
    sort xs !! i = Some a -> sort xs !! S i = Some b ->
    deal_score b <= deal_score a /\
    (deal_score a = deal_score b -> F64.leb (price a) (price b) = true).
Proof.
  intros Hnum i a b Ha Hb.
  exact (Sorted_adjacent ranked_before _ i a b (sort_Sorted xs Hnum) Ha Hb).
Qed.

Lemma ranked_output_is_sorted_witness :
  Forall numeric
    [Sample.plain_listing "https://www.ebay.com/itm/1" 29900 3;
     Sample.bose_listing;
     Sample.plain_listing "https://www.ebay.com/itm/2" 14900 3] /\
  sort [Sample.plain_listing "https://www.ebay.com/itm/1" 29900 3;
        Sample.bose_listing;
        Sample.plain_listing "https://www.ebay.com/itm/2" 14900 3] !! 1%nat =
    Some (Sample.plain_listing "https://www.ebay.com/itm/2" 14900 3) /\
  sort [Sample.plain_listing "https://www.ebay.com/itm/1" 29900 3;
        Sample.bose_listing;
        Sample.plain_listing "https://www.ebay.com/itm/2" 14900 3] !! 2%nat =
    Some (Sample.plain_listing "https://www.ebay.com/itm/1" 29900 3) /\
  deal_score (Sample.plain_listing "https://www.ebay.com/itm/1" 29900 3) <=
    deal_score (Sample.plain_listing "https://www.ebay.com/itm/2" 14900 3) /\
  (deal_score (Sample.plain_listing "https://www.ebay.com/itm/2" 14900 3) =
   deal_score (Sample.plain_listing "https://www.ebay.com/itm/1" 29900 3) ->
   F64.leb (price (Sample.plain_listing "https://www.ebay.com/itm/2" 14900 3))
           (price (Sample.plain_listing "https://www.ebay.com/itm/1" 29900 3)) = true).
Proof.
  assert (Forall numeric
    [Sample.plain_listing "https://www.ebay.com/itm/1" 29900 3;
     Sample.bose_listing;
     Sample.plain_listing "https://www.ebay.com/itm/2" 14900 3]) as H
    by (repeat constructor).
  split; [exact H|]. split; [reflexivity|]. split; [reflexivity|].
  apply (ranked_output_is_sorted _ H 1%nat); reflexivity.
Defined.

End SortFacts.

(** ** Deduplication *)

Section DedupFacts.
Import Scraper Spec.
Local Open Scope list_scope.

Implicit Types (xs rest pre unique : list listing) (seen : gset string).

(** The list being built only grows at its end. *)
Lemma dedup_loop_unique rest seen unique :
  dedup_loop rest seen unique = unique ++ dedup_loop rest seen [].
Proof.
  revert seen unique. induction rest as [|x rest IH]; intros seen unique; simpl.
  - by rewrite app_nil_r.
  - case_decide; [|done].
    rewrite (IH _ (unique ++ [x])), (IH _ [x]). by rewrite <- app_assoc.
Qed.

Lemma dedup_loop_cons x rest seen :
  dedup_loop (x :: rest) seen [] =
    if decide (dedup_key x ∉ seen)
    then x :: dedup_loop rest ({[dedup_key x]} ∪ seen) []
    else dedup_loop rest seen [].
Proof. simpl. case_decide; [|done]. by rewrite dedup_loop_unique. Qed.

(** With [seen] holding the keys of the listings [pre] already visited, the
    loop keeps the first occurrences among the rest. *)
Lemma dedup_loop_first_occurrences xs pre rest seen :
  xs = pre ++ rest ->
  (forall k, k ∈ seen <-> k ∈ dedup_key <$> pre) ->
  dedup_loop rest seen [] =
    (filter (first_occurrence xs)
            (imap (fun i x => (length pre + i, x)%nat) rest)).*2.
Proof.
  revert pre seen. induction rest as [|x rest IH]; intros pre seen Hxs Hseen; [done|].
  rewrite dedup_loop_cons, imap_cons, filter_cons.
  assert (first_occurrence xs (length pre + 0, x)%nat <-> dedup_key x ∉ seen)
    as Hfirst.
  { unfold first_occurrence. simpl.
    by rewrite Hxs, Nat.add_0_r, take_app_length, Hseen. }
  assert (imap ((fun i y => (length pre + i, y)%nat) ∘ S) rest =
          imap (fun i y => (length (pre ++ [x]) + i, y)%nat) rest) as ->.
  { apply imap_ext. intros i y _. simpl. rewrite length_app. simpl. f_equal. lia. }
  rewrite (cons_middle x pre rest), app_assoc in Hxs.
  destruct (decide (dedup_key x ∉ seen)) as [Hnew|Hold].
  - rewrite decide_True by (by apply Hfirst).
    rewrite fmap_cons. simpl. f_equal.
    apply (IH (pre ++ [x])); [done|]. intros k. rewrite fmap_app. set_solver.
  - rewrite decide_False by (by rewrite Hfirst).
    apply (IH (pre ++ [x])); [done|]. intros k. rewrite fmap_app.
    apply dec_stable in Hold. set_solver.
Qed.

Lemma deduplicate_first_occurrences xs : deduplicate xs = first_occurrences xs.
Proof.
  unfold deduplicate, first_occurrences.
  by rewrite (dedup_loop_first_occurrences xs [] xs ∅) by set_solver.
Qed.

(** The loop drops listings, never reorders or invents them. *)
Lemma dedup_loop_sublist rest seen : dedup_loop rest seen [] `sublist_of` rest.
Proof.
  revert seen. induction rest as [|x rest IH]; intros seen; [done|].
  rewrite dedup_loop_cons. case_decide.
  - by apply sublist_skip.
  - by apply sublist_cons.
Qed.

(** The keys it keeps are new and pairwise different. *)
Lemma dedup_loop_keys rest seen :
  NoDup (dedup_key <$> dedup_loop rest seen []) /\
  forall k, k ∈ dedup_key <$> dedup_loop rest seen [] -> k ∉ seen.
Proof.
  revert seen. induction rest as [|x rest IH]; intros seen.
  - simpl. split; [constructor|set_solver].
  - rewrite dedup_loop_cons. case_decide as Hx; [|apply IH].
    destruct (IH ({[dedup_key x]} ∪ seen)) as [Hnd Hnew].
    rewrite fmap_cons. split.
    + constructor; [|done]. intros Hin%Hnew. set_solver.
    + intros k [->|Hin%Hnew]%elem_of_cons; set_solver.
Qed.

(** A list whose keys are new and pairwise different passes unchanged. *)
Lemma dedup_loop_id rest seen :
  NoDup (dedup_key <$> rest) ->
  (forall k, k ∈ dedup_key <$> rest -> k ∉ seen) ->
  dedup_loop rest seen [] = rest.
Proof.
  revert seen. induction rest as [|x rest IH]; intros seen; [done|].
  rewrite fmap_cons. intros [Hx Hnd]%NoDup_cons Hnew.
  rewrite dedup_loop_cons, decide_True by (apply Hnew; set_solver).
  f_equal. apply IH; [done|]. intros k Hk. specialize (Hnew k). set_solver.
Qed.

(** A listing whose key was seen leaves no trace. *)
Lemma dedup_loop_app l1 l2 seen :
  dedup_loop (l1 ++ l2) seen [] =
    dedup_loop l1 seen [] ++
    dedup_loop l2 (list_to_set (dedup_key <$> l1) ∪ seen) [].
Proof.
  revert seen. induction l1 as [|x l1 IH]; intros seen.
  - simpl. by rewrite (left_id_L ∅ (∪)).
  - rewrite <- app_comm_cons, !dedup_loop_cons, fmap_cons, !IH.
    assert (dedup_key x ∈ seen -> list_to_set (dedup_key <$> l1) ∪ seen =
              list_to_set (dedup_key x :: (dedup_key <$> l1)) ∪ seen) as Hold
      by set_solver.
    assert (list_to_set (dedup_key <$> l1) ∪ ({[dedup_key x]} ∪ seen) =
            list_to_set (dedup_key x :: (dedup_key <$> l1)) ∪ seen) as Hnew
      by set_solver.
    case_decide as Hx.
    + by rewrite Hnew.
    + by rewrite (Hold Hx).
Qed.

Lemma filter_key_absent {A B} (f : A -> B) `{EqDecision B} (k : B) (l : list A) :
  k ∉ f <$> l -> filter (fun x => f x = k) l = [].
Proof.
  induction l as [|x l IH]; [done|].
  rewrite fmap_cons, not_elem_of_cons. intros [Hx Hl].
  rewrite filter_cons_False by done. by apply IH.
Qed.

(** Among pairwise different keys each key occurs at most once. *)
Lemma filter_key_NoDup {A B} (f : A -> B) `{EqDecision B} (k : B) (l : list A) :
  NoDup (f <$> l) -> (length (filter (fun x => f x = k) l) <= 1)%nat.
Proof.
  induction l as [|x l IH]; [simpl; lia|].
  rewrite fmap_cons. intros [Hx Hnd]%NoDup_cons.
  rewrite filter_cons. case_decide as Hk; [|by apply IH].
  subst k. rewrite filter_key_absent by done. simpl. lia.
Qed.

End DedupFacts.

Section DedupTheorems.
Import Str Scraper Spec.
Local Open Scope list_scope.

Lemma before_app c (u s : string) :
  before c (u +:+ s) =
    if any (fun a => Ascii.eqb a c) u then before c u else (u +:+ before c s).
Proof.
  induction u as [|a u IH]; simpl; [done|].
  destruct (Ascii.eqb a c); simpl; [done|]. rewrite IH.
  by destruct (any _ u).
Qed.

(** The key is the link up to its first question mark. *)
Lemma before_spec c s :
  any (fun a => Ascii.eqb a c) (before c s) = false /\
  (s = before c s \/ exists r, s = before c s +:+ String c r).
Proof.
  induction s as [|a s [IH1 IH2]]; simpl; [by auto|].
  destruct (Ascii.eqb_spec a c) as [->|Hne]; simpl.
  - split; [done|]. right. by exists s.
  - apply Ascii.eqb_neq in Hne. rewrite Hne, IH1. split; [done|].
    destruct IH2 as [IH2|[r IH2]]; [left|right; exists r]; congruence.
Qed.

(** C5.  The deduplicator keeps exactly the listings at the positions where
    a key occurs for the first time, in their order; the key of a listing is
    its link up to the first question mark.  So of two listings whose links
    are [u/itm/123?hash=abc] and [u/itm/123?hash=xyz] only the first
    remains. *)
Theorem deduplicate_keeps_first_occurrences :
  (forall xs, deduplicate xs =
     (filter (fun p => dedup_key p.2 ∉ dedup_key <$> take p.1 xs)
             (imap pair xs)).*2) /\
  (forall l,
     any (fun a => Ascii.eqb a "?") (dedup_key l) = false /\
     (link l = dedup_key l \/ exists r, link l = dedup_key l +:+ String "?" r)) /\
  (forall u a b,
     link a = u +:+ "/itm/123?hash=abc" ->
     link b = u +:+ "/itm/123?hash=xyz" ->
     deduplicate [a; b] = [a]).
Proof.
  split; [exact deduplicate_first_occurrences|].
  split; [intros l; apply before_spec|].
  intros u a b Ha Hb. unfold deduplicate.
  assert (dedup_key b = dedup_key a) as Hkey.
  { unfold dedup_key. rewrite Ha, Hb, !before_app. by destruct (any _ u). }
  rewrite !dedup_loop_cons, Hkey.
  rewrite decide_True by set_solver. by rewrite decide_False by set_solver.
Qed.

Lemma deduplicate_keeps_first_occurrences_witness :
  link (Sample.plain_listing "https://www.ebay.com/itm/123?hash=abc" 9900 3) =
    "https://www.ebay.com" +:+ "/itm/123?hash=abc" /\
  link (Sample.plain_listing "https://www.ebay.com/itm/123?hash=xyz" 8900 5) =
    "https://www.ebay.com" +:+ "/itm/123?hash=xyz" /\
  deduplicate [Sample.plain_listing "https://www.ebay.com/itm/123?hash=abc" 9900 3;
               Sample.plain_listing "https://www.ebay.com/itm/123?hash=xyz" 8900 5] =
    [Sample.plain_listing "https://www.ebay.com/itm/123?hash=abc" 9900 3].
Proof.
  split; [reflexivity|]. split; [reflexivity|].
  apply (proj2 (proj2 deduplicate_keeps_first_occurrences) "https://www.ebay.com");
    reflexivity.
Defined.

(** C7.  Deduplicating twice is deduplicating once, and the result is a
    subsequence of the input: the survivors keep their relative order. *)
Theorem deduplicate_idempotent_and_stable :
  (forall xs, deduplicate (deduplicate xs) = deduplicate xs) /\
  (forall xs, deduplicate xs `sublist_of` xs).
Proof.
  split; intros xs; unfold deduplicate.
  - destruct (dedup_loop_keys xs ∅) as [Hnd _].
    apply dedup_loop_id; [done|set_solver].
  - apply dedup_loop_sublist.
Qed.

(** C10.  An anchor without [href] gives its listing the empty link, whose
    key is empty.  After the deduplicator at most one listing with an empty
    link is left, and a listing with an empty link that comes after another
    one is dropped, whatever its other fields. *)
Theorem missing_href_collapses :
  (forall item l,
     scrape_item item = Ok (Some l) -> link_el item = Some None ->
     link l = "" /\ dedup_key l = "") /\
  (forall xs, (length (filter (fun l => link l = "") (deduplicate xs)) <= 1)%nat) /\
  (forall pre a mid b post,
     link a = "" -> link b = "" ->
     deduplicate (pre ++ a :: mid ++ b :: post) =
     deduplicate (pre ++ a :: mid ++ post)).
Proof.
  split; [|split].
  - intros item l (text & href & _ & _ & Hhref & _ & _ & Hlink & _)%scrape_item_fields E.
    rewrite E in Hhref. injection Hhref as <-. unfold dedup_key. by rewrite Hlink.
  - intros xs. unfold deduplicate.
    destruct (dedup_loop_keys xs ∅) as [Hnd _].
    etrans; [|apply (filter_key_NoDup dedup_key "" _ Hnd)].
    generalize (dedup_loop xs ∅ []). intros ys.
    induction ys as [|y ys IH]; [done|].
    destruct (decide (link y = "")) as [E|E].
    + rewrite (filter_cons_True (fun l => link l = "")) by done.
      rewrite (filter_cons_True (fun l => dedup_key l = ""))
        by (unfold dedup_key; by rewrite E).
      simpl. lia.
    + rewrite (filter_cons_False (fun l => link l = "")) by done.
      rewrite (filter_cons (fun l => dedup_key l = "")).
      case_decide; simpl; lia.
  - intros pre a mid b post Ha Hb. unfold deduplicate.
    rewrite !(dedup_loop_app pre). f_equal.
    rewrite !(app_comm_cons mid), !(dedup_loop_app (a :: mid)). f_equal.
    rewrite dedup_loop_cons, decide_False; [done|].
    intros Hnew. apply Hnew. rewrite fmap_cons. unfold dedup_key at 1 2.
    rewrite Ha, Hb. set_solver.
Qed.

Lemma missing_href_collapses_witness :
  (scrape_item (Sample.plain_node "Klipsch 5.1 set" "$199.00" None) =
     Ok (Some {| title := "Klipsch 5.1 set"; price := F64.of_decimal 19900 2;
                 shipping := "N/A"; condition := "N/A"; link := "";
                 brand_match := true; deal_score := 5 |}) /\
   link_el (Sample.plain_node "Klipsch 5.1 set" "$199.00" None) = Some None /\
   link {| title := "Klipsch 5.1 set"; price := F64.of_decimal 19900 2;
           shipping := "N/A"; condition := "N/A"; link := "";
           brand_match := true; deal_score := 5 |} = "" /\
   dedup_key {| title := "Klipsch 5.1 set"; price := F64.of_decimal 19900 2;
                shipping := "N/A"; condition := "N/A"; link := "";
                brand_match := true; deal_score := 5 |} = "") /\
  (link (Sample.plain_listing "" 19900 5) = "" /\
   link (Sample.plain_listing "" 8900 2) = "" /\
   deduplicate ([] ++ Sample.plain_listing "" 19900 5 ::
                  [Sample.bose_listing] ++ Sample.plain_listing "" 8900 2 :: []) =
   deduplicate ([] ++ Sample.plain_listing "" 19900 5 ::
                  [Sample.bose_listing] ++ [])).
Proof.
  assert (scrape_item (Sample.plain_node "Klipsch 5.1 set" "$199.00" None) =
    Ok (Some {| title := "Klipsch 5.1 set"; price := F64.of_decimal 19900 2;
                shipping := "N/A"; condition := "N/A"; link := "";
                brand_match := true; deal_score := 5 |})) as H
    by (vm_compute; reflexivity).
  split.
  - split; [exact H|]. split; [reflexivity|].
    exact (proj1 missing_href_collapses _ _ H eq_refl).
  - split; [reflexivity|]. split; [reflexivity|].
    exact (proj2 (proj2 missing_href_collapses) []
             (Sample.plain_listing "" 19900 5) [Sample.bose_listing]
             (Sample.plain_listing "" 8900 2) [] eq_refl eq_refl).
Defined.

End DedupTheorems.

(** ** The extractor *)

Section ExtractorFacts.
Import Str Scraper Spec.
Local Open Scope list_scope.

(** What holds of every listing [scrape_item] builds and of the listings
    already collected holds of the listings the loops return. *)
Lemma scrape_items_Forall (P : listing -> Prop) items listings out :
  (forall item l, scrape_item item = Ok (Some l) -> P l) ->
  Forall P listings -> scrape_items items listings = Ok out -> Forall P out.
Proof.
  intros HP. revert listings. induction items as [|item items IH]; simpl.
  - by intros listings H [= <-].
  - intros listings H. destruct (scrape_item item) as [[l|]|e] eqn:Hitem; simpl.
    + apply IH. apply Forall_app. split; [done|]. constructor; [|done]. eauto.
    + by apply IH.
    + done.
Qed.

Lemma scrape_pages_Forall (P : listing -> Prop) pages listings out :
  (forall item l, scrape_item item = Ok (Some l) -> P l) ->
  Forall P listings -> scrape_pages pages listings = Ok out -> Forall P out.
Proof.
  intros HP. revert listings. induction pages as [|[|items] pages IH]; simpl.
  - by intros listings H [= <-].
  - apply IH.
  - intros listings H.
    destruct (scrape_items items listings) as [listings'|e] eqn:Hitems; simpl; [|done].
    apply IH. eauto using scrape_items_Forall.
Qed.

Lemma collect_Forall (P : listing -> Prop) responses all_listings out :
  (forall item l, scrape_item item = Ok (Some l) -> P l) ->
  Forall P all_listings -> collect responses all_listings = Ok out -> Forall P out.
Proof.
  intros HP. revert all_listings.
  induction responses as [|pages responses IH]; simpl.
  - by intros all_listings H [= <-].
  - intros all_listings H. unfold scrape_listings.
    destruct (scrape_pages pages []) as [results|e] eqn:Hpages; simpl; [|done].
    apply IH. apply Forall_app. split; [done|].
    eapply scrape_pages_Forall; [exact HP|constructor|exact Hpages].
Qed.

Lemma displayed_sublist xs : displayed xs `sublist_of` xs.
Proof.
  unfold displayed, select_top. etrans; [apply sublist_take|].
  destruct (filter _ xs) eqn:E.
  - apply sublist_take.
  - rewrite <- E. apply sublist_filter.
Qed.

(** C9.  A node without a title, a price or an anchor element yields no
    listing, and neither does a node whose lowercased title starts with
    "shop on ebay", in particular one whose title is "Shop on eBay" in any
    letter case, whatever its other elements.  A listing that is built has
    the shipping and condition texts of its node, "N/A" where the node has
    no such element; whether a listing is built does not depend on these
    two elements. *)
Theorem extractor_exclusions :
  (forall item,
     title_el item = None \/ price_el item = None \/ link_el item = None ->
     scrape_item item = Ok None) /\
  (forall item t,
     title_el item = Some t -> startswith "shop on ebay" (lower t) = true ->
     scrape_item item = Ok None) /\
  (forall item t,
     title_el item = Some t -> lower t = "shop on ebay" ->
     scrape_item item = Ok None) /\
  (forall item l,
     scrape_item item = Ok (Some l) ->
     shipping l = default "N/A" (shipping_el item) /\
     condition l = default "N/A" (condition_el item)) /\
  (forall item s c, emitted (with_optional item s c) <-> emitted item).
Proof.
  assert (forall item t,
    title_el item = Some t -> startswith "shop on ebay" (lower t) = true ->
    scrape_item item = Ok None) as Hshop.
  { intros item t Ht Hs. unfold scrape_item. rewrite Ht, Hs.
    by destruct (price_el item), (link_el item). }
  split; [|split; [|split; [|split]]].
  - intros item [H|[H|H]]; unfold scrape_item; rewrite H; try done.
    + by destruct (title_el item).
    + by destruct (title_el item), (price_el item).
  - exact Hshop.
  - intros item t Ht Hl. apply (Hshop item t Ht). by rewrite Hl.
  - intros item l H.
    by apply scrape_item_fields in H as (? & ? & _ & _ & _ & _ & _ & _ & ? & ? & _).
  - intros item s c. unfold emitted, scrape_item, with_optional.
    cbn [title_el price_el link_el shipping_el condition_el].
    destruct (title_el item) as [t|], (price_el item) as [text|],
      (link_el item) as [href|]; try (split; by intros [? ?]).
    destruct (startswith "shop on ebay" (lower t)); [split; by intros [? ?]|].
    destruct (parse_price text) as [[p|]|e]; simpl;
      try (split; by intros [? ?]).
    split; eauto.
Qed.

Lemma extractor_exclusions_witness :
  title_el (Sample.plain_node "SHOP ON EBAY" "$99.00" (Some "https://www.ebay.com/itm/1"))
    = Some "SHOP ON EBAY" /\
  lower "SHOP ON EBAY" = "shop on ebay" /\
  scrape_item (Sample.plain_node "SHOP ON EBAY" "$99.00" (Some "https://www.ebay.com/itm/1"))
    = Ok None.
Proof.
  split; [reflexivity|]. split; [reflexivity|].
  apply (proj1 (proj2 (proj2 extractor_exclusions)) _ "SHOP ON EBAY"); reflexivity.
Defined.

(** C8.  A node whose price text does not parse yields no listing; and in
    a run every listing collected, and so every listing left by the
    deduplicator, ranked or displayed, carries a price that [parse_price]
    read from a text, a number. *)
Theorem retained_listings_have_parsed_price :
  (forall item text,
     price_el item = Some text -> parse_price text = Ok None ->
     scrape_item item = Ok None) /\
  (forall responses all_listings,
     collect responses [] = Ok all_listings ->
     forall l,
       l ∈ all_listings \/ l ∈ deduplicate all_listings \/
       l ∈ sort (deduplicate all_listings) \/
       l ∈ displayed (sort (deduplicate all_listings)) ->
       parsed l /\ numeric l).
Proof.
  split.
  - intros item text Ht Hp. unfold scrape_item. rewrite Ht, Hp.
    destruct (title_el item); [|done]. destruct (link_el item); [|done].
    by destruct (startswith _ _).
  - intros responses all_listings Hrun.
    assert (Forall (fun l => parsed l /\ numeric l) all_listings) as Hall.
    { eapply collect_Forall; [|constructor|exact Hrun].
      intros item l (text & href & _ & _ & _ & _ & Hp & _)%scrape_item_fields.
      split; [by exists text|]. by eapply parse_price_numeric. }
    rewrite Forall_forall in Hall.
    assert (forall l, l ∈ deduplicate all_listings -> l ∈ all_listings) as Hd.
    { intros l Hl. eapply elem_of_sublist; [exact Hl|apply dedup_loop_sublist]. }
    assert (forall l, l ∈ sort (deduplicate all_listings) ->
                      l ∈ deduplicate all_listings) as Hs.
    { intros l. by rewrite sort_perm. }
    assert (forall l, l ∈ displayed (sort (deduplicate all_listings)) ->
                      l ∈ sort (deduplicate all_listings)) as Hr.
    { intros l Hl. eapply elem_of_sublist; [exact Hl|apply displayed_sublist]. }
    intros l [H|[H|[H|H]]]; auto.
Qed.

Lemma retained_listings_have_parsed_price_witness :
  collect [[Page [Sample.bose; Sample.plain_node "Speaker set" "Call for price" None];
            RequestException]] [] = Ok [Sample.bose_listing] /\
  Sample.bose_listing ∈ [Sample.bose_listing] /\
  parsed Sample.bose_listing /\ numeric Sample.bose_listing.
Proof.
  assert (collect [[Page [Sample.bose;
                          Sample.plain_node "Speaker set" "Call for price" None];
                    RequestException]] [] = Ok [Sample.bose_listing]) as H
    by (vm_compute; reflexivity).
  assert (Sample.bose_listing ∈ [Sample.bose_listing]) as Hin by constructor.
  split; [exact H|]. split; [exact Hin|].
  exact (proj2 retained_listings_have_parsed_price _ _ H _ (or_introl Hin)).
Defined.

End ExtractorFacts.

(** ** The report *)

Section ReportFacts.
Import Str Scraper Spec.
Local Open Scope list_scope.

Lemma filter_nil_Forall {A} (P : A -> Prop) `{forall x, Decision (P x)} (l : list A) :
  filter P l = [] <-> Forall (fun x => ~ P x) l.
Proof.
  induction l as [|x l IH]; [by split; [constructor|]|].
  rewrite filter_cons, Forall_cons. case_decide; [|tauto].
  split; [done|]. by intros [? _].
Qed.

(** C6.  The report shows the ranked listings whose score is at least 3,
    in their order; when there is none it shows the first 15 of the ranked
    listings instead; either way it shows at most 20 rows, the first 20 of
    the selection. *)
Theorem report_selection (all_listings : list listing) :
  (Exists (fun l => 3 <= deal_score l) all_listings ->
   displayed all_listings =
     take 20 (filter (fun l => 3 <= deal_score l) all_listings)) /\
  (Forall (fun l => deal_score l < 3) all_listings ->
   displayed all_listings = take 15 all_listings) /\
  (length (displayed all_listings) <= 20)%nat.
Proof.
  unfold displayed, select_top. split; [|split].
  - intros Hex. destruct (filter _ all_listings) eqn:E; [|done].
    apply filter_nil_Forall in E. apply Exists_exists in Hex as (l & Hl & Hs).
    rewrite Forall_forall in E. by destruct (E l Hl).
  - intros Hall.
    assert (filter (fun l => 3 <= deal_score l) all_listings = []) as ->.
    { apply filter_nil_Forall. eapply Forall_impl; [exact Hall|].
      simpl. intros l. lia. }
    by rewrite take_take.
  - rewrite length_take. lia.
Qed.

Lemma report_selection_witness :
  (Exists (fun l => 3 <= deal_score l)
     [Sample.bose_listing; Sample.plain_listing "https://www.ebay.com/itm/7" 9900 2] /\
   displayed [Sample.bose_listing; Sample.plain_listing "https://www.ebay.com/itm/7" 9900 2] =
     take 20 (filter (fun l => 3 <= deal_score l)
       [Sample.bose_listing; Sample.plain_listing "https://www.ebay.com/itm/7" 9900 2])) /\
  (Forall (fun l => deal_score l < 3)
     [Sample.plain_listing "https://www.ebay.com/itm/7" 9900 2;
      Sample.plain_listing "https://www.ebay.com/itm/8" 39900 0] /\
   displayed [Sample.plain_listing "https://www.ebay.com/itm/7" 9900 2;
              Sample.plain_listing "https://www.ebay.com/itm/8" 39900 0] =
     take 15 [Sample.plain_listing "https://www.ebay.com/itm/7" 9900 2;
              Sample.plain_listing "https://www.ebay.com/itm/8" 39900 0]).
Proof.
  assert (Exists (fun l => 3 <= deal_score l)
    [Sample.bose_listing; Sample.plain_listing "https://www.ebay.com/itm/7" 9900 2])
    as H by (apply Exists_cons_hd; simpl; lia).
  assert (Forall (fun l => deal_score l < 3)
    [Sample.plain_listing "https://www.ebay.com/itm/7" 9900 2;
     Sample.plain_listing "https://www.ebay.com/itm/8" 39900 0])
    as H' by (repeat constructor).
  split.
  - split; [exact H|]. exact (proj1 (report_selection _) H).
  - split; [exact H'|]. exact (proj1 (proj2 (report_selection _)) H').
Defined.

(** What [main] prints a block for: the selection out of the ranked
    listings of the run. *)
Lemma main_displays responses rows :
  main responses = Ok rows <->
  exists all_listings, ranked responses = Ok all_listings /\
                       rows = displayed all_listings.
Proof.
  unfold main. destruct (ranked responses) as [all_listings|e]; simpl.
  - split; [intros [= <-]; eauto|]. by intros (? & [= <-] & ->).
  - split; [done|]. by intros (? & ? & _).
Qed.

(** The ranked listings of a run are in ranking order. *)
Lemma ranked_Sorted responses xs :
  ranked responses = Ok xs -> Sorted ranked_before xs.
Proof.
  unfold ranked. destruct (collect responses []) as [all_listings|e] eqn:Hrun; [|done].
  simpl. intros [= <-]. apply sort_Sorted.
  assert (Forall numeric all_listings) as Hall.
  { eapply collect_Forall; [|constructor|exact Hrun].
    intros item l (text & href & _ & _ & _ & _ & Hp & _)%scrape_item_fields.
    by eapply parse_price_numeric. }
  rewrite Forall_forall in Hall |- *. intros l Hl. apply Hall.
  eapply elem_of_sublist; [exact Hl|apply dedup_loop_sublist].
Qed.

End ReportFacts.

(** ** The price parser on its inputs *)

Section PriceTheorems.
Import Str Re Scraper.

(** The range of the specification: the lower bound, 80.0. *)
Lemma parse_price_range :
  parse_price "$80.00 to $120.00" =
    Ok (Some (S754_finite false 5629499534213120 (-46))) /\
  S754_finite false 5629499534213120 (-46) = F64.of_int 80.
Proof. by vm_compute. Qed.

(** The outcome of [parse_price] on every text, by what [findall] finds. *)
Lemma parse_price_outcome text :
  match findall text with
  | [] => parse_price text = Ok None
  | m :: _ =>
      if any is_digit m
      then exists v, parse_price text = Ok (Some v) /\ F64.is_nan v = false
      else parse_price text = Raise ValueError
  end.
Proof.
  destruct (findall text) as [|m ms] eqn:Hfind; [by apply parse_price_none|].
  destruct (parse_price_first _ _ _ Hfind) as (body & dot & frac & _ & _ & _ & Hv).
  destruct (any is_digit m) eqn:Hd; [|done].
  eexists. split; [exact Hv|]. eapply parse_price_numeric. exact Hv.
Qed.

(** C1.  On the text [$, $5.00] the pattern first matches [$,], which is
    empty once the dollar sign and the comma are gone; [float] raises, and
    the amount [$5.00] that follows is never read. *)
Theorem parse_price_first_match_without_digit :
  findall "$, $5.00" = ["$,"; "$5.00"]%list /\
  parse_price "$, $5.00" = Raise ValueError.
Proof. by vm_compute. Qed.

(** C2.  On the text [$,] [parse_price] returns neither a number nor
    [None]: it raises [ValueError]. *)
Theorem parse_price_raises_on_lone_comma :
  parse_price "$," = Raise ValueError.
Proof. by vm_compute. Qed.

End PriceTheorems.

(** * Further properties of the script *)

(** ** What [parse_price] returns *)

Section PriceOutcomes.
Import Str Re Scraper.

(** X1.  [parse_price] returns [None] exactly on the texts in which the
    price pattern matches nowhere. *)
Theorem parse_price_none_iff text :
  parse_price text = Ok None <-> ~ has_amount text.
Proof.
  rewrite <- findall_nil_iff. split; [|apply parse_price_none].
  intros Hp. destruct (findall text) as [|m ms] eqn:Hfind; [done|].
  destruct (parse_price_first _ _ _ Hfind) as (body & dot & frac & _ & _ & _ & Hv).
  rewrite Hv in Hp. by destruct (any is_digit m).
Qed.

Lemma no_digit_commas body :
  all is_digit_or_comma body = true -> any is_digit body = false ->
  all (fun c => Ascii.eqb c ",") body = true.
Proof.
  induction body as [|c body IH]; simpl; [done|].
  intros [Hc Hb]%andb_true_iff [Hd Hn]%orb_false_iff.
  unfold is_digit_or_comma in Hc. rewrite Hd in Hc. simpl in Hc.
  rewrite Hc. by apply IH.
Qed.

(** X2.  [parse_price] raises exactly when the leftmost match of the price
    pattern holds no digit: the first element of [findall] is then a dollar
    sign, commas and at most a point. *)
Theorem parse_price_raises_iff text e :
  parse_price text = Raise e <->
  exists commas dot ms,
    findall text = ("$" ++ commas ++ dot) :: ms /\
    commas <> "" /\ all (fun c => Ascii.eqb c ",") commas = true /\
    (dot = "" \/ dot = ".").
Proof.
  split.
  - intros Hp. destruct (findall text) as [|m ms] eqn:Hfind.
    { by rewrite parse_price_none in Hp. }
    pose proof (findall_head text) as H. rewrite Hfind in H.
    destruct H as (pre & rest & _ & Hm & _).
    destruct (match_here_shape _ _ Hm)
      as (body & dot & frac & _ & _ & -> & Hne & Hb & Hf & Hd).
    unfold parse_price in Hp. rewrite Hfind in Hp. cbv zeta in Hp.
    rewrite strip_amount, float_plain in Hp by eauto using remove_comma_digits.
    rewrite any_app, any_remove_comma in Hp.
    destruct (any is_digit body) eqn:Hdb; [done|].
    destruct (any is_digit frac) eqn:Hdf; [done|].
    assert (frac = "") as ->.
    { destruct frac as [|c frac]; [done|]. simpl in Hf, Hdf.
      apply andb_true_iff in Hf as [Hc _]. by rewrite Hc in Hdf. }
    exists body, dot, ms. rewrite app_nil_r_str.
    split; [done|]. split; [done|]. split; [by apply no_digit_commas|].
    destruct Hd as [->|[-> _]]; auto.
  - intros (commas & dot & ms & Hfind & Hne & Hc & Hd).
    destruct (parse_price_first _ _ _ Hfind) as (body & dot' & frac & _ & _ & _ & Hv).
    rewrite Hv.
    assert (any is_digit ("$" ++ commas ++ dot) = false) as ->; [|by destruct e].
    simpl. rewrite any_app.
    assert (any is_digit commas = false) as ->.
    { clear -Hc. induction commas as [|c commas IH]; simpl in *; [done|].
      apply andb_true_iff in Hc as [Hc1 Hc2]. apply Ascii.eqb_eq in Hc1 as ->.
      by rewrite IH. }
    by destruct Hd as [->| ->].
Qed.

Lemma binary_round_aux_sign s m e l :
  match binary_round_aux F64.prec F64.emax s m e l with
  | S754_zero s' | S754_infinity s' | S754_finite s' _ _ => s' = s
  | S754_nan => True
  end.
Proof.
  unfold binary_round_aux.
  destruct (shr_fexp F64.prec F64.emax m e l) as [mrs' e'].
  destruct (shr_fexp F64.prec F64.emax _ e' loc_Exact) as [mrs'' e''].
  destruct (shr_m mrs''); try done. by destruct (_ <=? _).
Qed.

Lemma of_decimal_nonneg m k :
  0 <= m -> F64.leb (F64.of_int 0) (F64.of_decimal m k) = true.
Proof.
  intros H. pose proof (of_decimal_not_nan m k H) as Hnan.
  destruct m as [|p|p]; [done| |lia].
  unfold F64.of_decimal, SFdiv in *.
  destruct (SFdiv_core_binary _ _ _ _ _ _) as [[mz ez] lz].
  pose proof (binary_round_aux_sign (xorb false false) mz ez lz) as Hs.
  destruct (binary_round_aux _ _ _ _ _ _) as [s|s| |s m' e']; try done;
    simpl in Hs; by subst s.
Qed.

(** X3.  A price that [parse_price] returns is a number and is not
    negative. *)
Theorem parse_price_nonneg text p :
  parse_price text = Ok (Some p) ->
  F64.is_nan p = false /\ F64.leb (F64.of_int 0) p = true.
Proof.
  intros Hp. split; [by eapply parse_price_numeric|].
  destruct (findall text) as [|m ms] eqn:Hfind.
  { by rewrite parse_price_none in Hp. }
  destruct (parse_price_first _ _ _ Hfind) as (body & dot & frac & _ & Hb & Hf & Hv).
  rewrite Hv in Hp. destruct (any is_digit m); [|done].
  injection Hp as <-. apply of_decimal_nonneg, digits_value_nonneg.
  rewrite all_app, Hf. by rewrite remove_comma_digits.
Qed.

Lemma parse_price_nonneg_witness :
  parse_price "US $1,299.50" = Ok (Some (F64.of_decimal 129950 2)) /\
  F64.is_nan (F64.of_decimal 129950 2) = false /\
  F64.leb (F64.of_int 0) (F64.of_decimal 129950 2) = true.
Proof.
  assert (parse_price "US $1,299.50" = Ok (Some (F64.of_decimal 129950 2))) as H
    by (vm_compute; reflexivity).
  split; [exact H|]. exact (parse_price_nonneg _ _ H).
Defined.

Lemma findall_skip pre s :
  any (fun c => Ascii.eqb c "$") pre = false -> findall (pre ++ s) = findall s.
Proof.
  unfold findall. induction pre as [|c pre IH]; simpl; [done|].
  intros [Hc Hpre]%orb_false_iff. rewrite match_here_greedy. unfold greedy_match.
  rewrite <- IH by done.
  destruct (Ascii.eqb_spec c "$") as [->|Hne]; [done|].
  by destruct c as [[] [] [] [] [] [] [] []].
Qed.

(** X4.  When the first dollar sign of a text starts an amount (digits and
    commas, then either a point and digits or nothing that could extend
    it) which holds a digit, [parse_price] returns the number its digits
    spell, commas dropped and the point before the fraction digits,
    whatever follows: of a range it returns the lower bound. *)
Theorem parse_price_value pre body dot fp rest :
  any (fun c => Ascii.eqb c "$") pre = false ->
  body <> "" -> all is_digit_or_comma body = true -> all is_digit fp = true ->
  (dot = "." /\ stops is_digit rest) \/
  (dot = "" /\ fp = "" /\
   stops (fun c => is_digit_or_comma c || Ascii.eqb c ".") rest) ->
  any is_digit (body ++ fp) = true ->
  parse_price (pre ++ "$" ++ body ++ dot ++ fp ++ rest) =
    Ok (Some (F64.of_decimal (Py.digits_value (remove "," body ++ fp))
                             (String.length fp))).
Proof.
  intros Hpre Hne Hbody Hfp Hdot Hdigit.
  assert (match_here ("$" ++ body ++ dot ++ fp ++ rest) =
          Some ("$" ++ body ++ dot ++ fp)) as Hm.
  { rewrite match_here_greedy. simpl.
    destruct Hdot as [[-> Hrest]|(-> & -> & Hrest)].
    - rewrite (span_all is_digit_or_comma body) by done.
      destruct body as [|b0 body]; [done|]. simpl.
      by rewrite (span_all is_digit fp rest).
    - simpl. rewrite (span_all is_digit_or_comma body rest); cycle 1.
      { done. }
      { destruct rest as [|c rest]; [done|]. simpl in *.
        by apply orb_false_iff in Hrest as [? _]. }
      destruct body as [|b0 body]; [done|].
      destruct rest as [|c rest]; simpl.
      + by rewrite !app_nil_r_str.
      + simpl in Hrest. apply orb_false_iff in Hrest as [Hdc Hpt].
        destruct (Ascii.eqb_spec c ".") as [->|Hc]; [done|].
        assert (is_digit c = false) as Hd.
        { unfold is_digit_or_comma in Hdc. by apply orb_false_iff in Hdc as [? _]. }
        assert (match c with
                | "."%char => (".", rest)
                | _ => ("", String c rest)
                end = ("", String c rest)) as ->
          by (destruct c as [[] [] [] [] [] [] [] []]; try done; by destruct Hc).
        simpl. by rewrite Hd, !app_nil_r_str. }
  unfold parse_price. rewrite findall_skip by done.
  unfold findall. cbn [String.append findall_from]. simpl in Hm. rewrite Hm.
  cbv zeta. change (String "$" (body ++ dot ++ fp)) with ("$" ++ body ++ dot ++ fp).
  assert (dot = "." \/ dot = "" /\ fp = "") as Hd'
    by (destruct Hdot as [[-> _]|(-> & -> & _)]; auto).
  rewrite strip_amount, float_plain by eauto using remove_comma_digits.
  by rewrite any_app, any_remove_comma, <- any_app, Hdigit.
Qed.

Lemma parse_price_value_witness :
  parse_price ("" ++ "$" ++ "80" ++ "." ++ "00" ++ " to $120.00") =
    Ok (Some (F64.of_decimal (Py.digits_value (remove "," "80" ++ "00"))
                             (String.length "00"))) /\
  F64.of_decimal (Py.digits_value (remove "," "80" ++ "00")) (String.length "00") =
    F64.of_int 80.
Proof.
  split; [|by vm_compute].
  apply (parse_price_value "" "80" "." "00" " to $120.00"); try done.
  by left.
Defined.

End PriceOutcomes.

(** ** The order of binary64 values *)

Section F64Order.

Lemma SFcompare_trans x y z c1 c2 :
  SFcompare x y = Some c1 -> SFcompare y z = Some c2 ->
  c1 <> Gt -> c2 <> Gt ->
  SFcompare x z = Some (match c1, c2 with Eq, Eq => Eq | _, _ => Lt end).
Proof.
  destruct x as [[]|[]| |[] mx ex], y as [[]|[]| |[] my ey],
    z as [[]|[]| |[] mz ez]; simpl; intros H1 H2 Hc1 Hc2; try done;
  change (PosDef.Pos.compare_cont Eq) with Pos.compare in *;
  repeat match goal with
  | H : context [Z.compare ?a ?b] |- _ => destruct (Z.compare_spec a b); try lia
  | |- context [Z.compare ?a ?b] => destruct (Z.compare_spec a b); try lia
  | H : context [Pos.compare ?a ?b] |- _ => destruct (Pos.compare_spec a b); try lia
  | |- context [Pos.compare ?a ?b] => destruct (Pos.compare_spec a b); try lia
  end; simplify_eq; try done; try lia.
Qed.

Lemma leb_trans x y z :
  F64.leb x y = true -> F64.leb y z = true -> F64.leb x z = true.
Proof.
  unfold F64.leb, SFleb.
  destruct (SFcompare x y) as [c1|] eqn:H1; [|done].
  destruct (SFcompare y z) as [c2|] eqn:H2; [|by destruct c1].
  intros Hc1 Hc2.
  rewrite (SFcompare_trans x y z c1 c2 H1 H2); destruct c1, c2; done.
Qed.

Lemma leb_ltb_trans x y z :
  F64.leb x y = true -> F64.ltb y z = true -> F64.ltb x z = true.
Proof.
  unfold F64.leb, F64.ltb, SFleb, SFltb.
  destruct (SFcompare x y) as [c1|] eqn:H1; [|done].
  destruct (SFcompare y z) as [c2|] eqn:H2; [|by destruct c1].
  intros Hc1 Hc2.
  rewrite (SFcompare_trans x y z c1 c2 H1 H2); destruct c1, c2; done.
Qed.

End F64Order.

(** ** More on the deal score *)

Section ScoreMore.
Import Str Scraper Spec.

(** X5.  A listing of a quality brand always reaches the report's
    threshold of 3; a listing of no such brand scores at most 5. *)
Theorem brand_decides_threshold item l :
  scrape_item item = Ok (Some l) ->
  (brand_match l = true -> 3 <= deal_score l) /\
  (brand_match l = false -> deal_score l <= 5).
Proof.
  intros (text & href & _ & _ & _ & _ & _ & _ & _ & _ & _ & Hs)%scrape_item_fields.
  rewrite Hs, score_sum. split; intros ->; repeat case_match; lia.
Qed.

Lemma brand_decides_threshold_witness :
  scrape_item Sample.bose = Ok (Some Sample.bose_listing) /\
  (brand_match Sample.bose_listing = true -> 3 <= deal_score Sample.bose_listing) /\
  (brand_match Sample.bose_listing = false -> deal_score Sample.bose_listing <= 5).
Proof.
  assert (scrape_item Sample.bose = Ok (Some Sample.bose_listing)) as H
    by (vm_compute; reflexivity).
  split; [exact H|]. exact (brand_decides_threshold _ _ H).
Defined.

(** X6.  The "N/A" that stands in for a missing shipping or condition
    element earns nothing: a node without both gets its score from the
    brand and the price alone. *)
Theorem missing_optional_elements_earn_nothing item l :
  scrape_item item = Ok (Some l) ->
  shipping_el item = None -> condition_el item = None ->
  shipping_points l = 0 /\ condition_points l = 0 /\
  deal_score l = brand_points l + price_points l.
Proof.
  intros H Hship Hcond.
  apply scrape_item_fields in H
    as (text & href & _ & _ & _ & _ & _ & _ & Hs & Hc & Hb & Hscore).
  rewrite Hship in Hs. rewrite Hcond in Hc. simpl in Hs, Hc.
  rewrite Hscore, score_sum, Hb.
  unfold shipping_points, condition_points, brand_points, price_points,
    is_quality_brand.
  rewrite Hs, Hc.
  change (contains "free" (lower "N/A")) with false.
  change (contains "new" (lower "N/A") || contains "open box" (lower "N/A"))
    with false.
  split; [done|]. split; [done|]. lia.
Qed.

Lemma missing_optional_elements_earn_nothing_witness :
  scrape_item (Sample.plain_node "Klipsch 5.1 set" "$199.00" None) =
    Ok (Some {| title := "Klipsch 5.1 set"; price := F64.of_decimal 19900 2;
                shipping := "N/A"; condition := "N/A"; link := "";
                brand_match := true; deal_score := 5 |}) /\
  deal_score {| title := "Klipsch 5.1 set"; price := F64.of_decimal 19900 2;
                shipping := "N/A"; condition := "N/A"; link := "";
                brand_match := true; deal_score := 5 |} =
    brand_points {| title := "Klipsch 5.1 set"; price := F64.of_decimal 19900 2;
                    shipping := "N/A"; condition := "N/A"; link := "";
                    brand_match := true; deal_score := 5 |} +
    price_points {| title := "Klipsch 5.1 set"; price := F64.of_decimal 19900 2;
                    shipping := "N/A"; condition := "N/A"; link := "";
                    brand_match := true; deal_score := 5 |}.
Proof.
  assert (scrape_item (Sample.plain_node "Klipsch 5.1 set" "$199.00" None) =
    Ok (Some {| title := "Klipsch 5.1 set"; price := F64.of_decimal 19900 2;
                shipping := "N/A"; condition := "N/A"; link := "";
                brand_match := true; deal_score := 5 |})) as H
    by (vm_compute; reflexivity).
  split; [exact H|].
  exact (proj2 (proj2 (missing_optional_elements_earn_nothing _ _ H eq_refl eq_refl))).
Defined.

(** X7.  All else equal, a lower price never lowers the score. *)
Theorem cheaper_never_scores_lower brand free cond p1 p2 :
  F64.leb p1 p2 = true ->
  score brand free p2 cond <= score brand free p1 cond.
Proof.
  intros Hle. rewrite !score_sum.
  destruct (F64.ltb p2 (F64.of_int 200)) eqn:H200.
  { rewrite (leb_ltb_trans _ _ _ Hle H200). lia. }
  destruct (F64.ltb p2 (F64.of_int 350)) eqn:H350.
  { rewrite (leb_ltb_trans _ _ _ Hle H350).
    destruct (F64.ltb p1 (F64.of_int 200)); lia. }
  repeat case_match; lia.
Qed.

Lemma cheaper_never_scores_lower_witness :
  F64.leb (F64.of_decimal 19999 2) (F64.of_decimal 20000 2) = true /\
  score false true (F64.of_decimal 20000 2) "Used" <=
  score false true (F64.of_decimal 19999 2) "Used".
Proof.
  assert (F64.leb (F64.of_decimal 19999 2) (F64.of_decimal 20000 2) = true) as H
    by (vm_compute; reflexivity).
  split; [exact H|]. exact (cheaper_never_scores_lower _ _ _ _ _ H).
Defined.

End ScoreMore.

(** ** The loops of a run *)

Section RunFacts.
Import Scraper Run.
Local Open Scope list_scope.

Lemma scrape_items_flat items listings :
  scrape_items items listings =
    if forallb passes items then Ok (listings ++ omap listing_of items)
    else Raise ValueError.
Proof.
  revert listings. induction items as [|item items IH]; intros listings; simpl.
  - by rewrite app_nil_r.
  - unfold passes at 1, listing_of at 1.
    destruct (scrape_item item) as [[l|]|[]]; simpl; [| |done].
    + rewrite IH. destruct (forallb passes items); [|done].
      by rewrite <- app_assoc.
    + apply IH.
Qed.

Lemma scrape_pages_flat pages listings :
  scrape_pages pages listings =
    if forallb passes (nodes_of pages)
    then Ok (listings ++ omap listing_of (nodes_of pages))
    else Raise ValueError.
Proof.
  revert listings. unfold nodes_of.
  induction pages as [|[|items] pages IH]; intros listings; simpl.
  - by rewrite app_nil_r.
  - apply IH.
  - rewrite scrape_items_flat, forallb_app, omap_app.
    destruct (forallb passes items); simpl; [|done].
    rewrite IH. destruct (forallb passes _); [|done].
    by rewrite <- app_assoc.
Qed.

(** X8.  [scrape_listings] returns the listings of the nodes of the fetched
    pages in page order: a page whose fetch failed adds nothing, a node
    that is skipped adds nothing; and when a single node raises, the call
    raises and returns no listing at all. *)
Theorem scrape_listings_flat pages :
  scrape_listings pages =
    if forallb passes (nodes_of pages)
    then Ok (omap listing_of (nodes_of pages))
    else Raise ValueError.
Proof. unfold scrape_listings. by rewrite scrape_pages_flat. Qed.

Lemma collect_flat responses all_listings :
  collect responses all_listings =
    if forallb passes (concat (nodes_of <$> responses))
    then Ok (all_listings ++ omap listing_of (concat (nodes_of <$> responses)))
    else Raise ValueError.
Proof.
  revert all_listings.
  induction responses as [|pages responses IH]; intros all_listings; simpl.
  - by rewrite app_nil_r.
  - unfold scrape_listings. rewrite scrape_pages_flat, forallb_app, omap_app.
    destruct (forallb passes (nodes_of pages)); simpl; [|done].
    rewrite IH. destruct (forallb passes _); [|done].
    by rewrite <- app_assoc.
Qed.

(** X9.  [main] reaches its report exactly when no node of any fetched page
    raises, and then reports on the listings of all nodes, query after
    query and page after page; one node that raises, wherever it stands,
    ends the run without a report. *)
Theorem main_flat responses :
  main responses =
    if forallb passes (concat (nodes_of <$> responses))
    then Ok (displayed (sort (deduplicate
               (omap listing_of (concat (nodes_of <$> responses))))))
    else Raise ValueError.
Proof.
  unfold main, ranked. rewrite collect_flat.
  by destruct (forallb passes _).
Qed.

End RunFacts.

(** ** More on deduplication *)

Section DedupMore.
Import Scraper Run.
Local Open Scope list_scope.

Lemma dedup_loop_key_set rest (seen : gset string) k :
  k ∈ dedup_key <$> dedup_loop rest seen [] <->
  k ∈ dedup_key <$> rest /\ k ∉ seen.
Proof.
  revert seen. induction rest as [|x rest IH]; intros seen.
  - simpl. set_solver.
  - rewrite dedup_loop_cons, (fmap_cons dedup_key x rest). case_decide as Hx.
    + rewrite fmap_cons, !elem_of_cons, IH.
      destruct (decide (k = dedup_key x)) as [->|Hne]; set_solver.
    + rewrite IH, elem_of_cons. set_solver.
Qed.

(** X10.  After deduplication no two listings share a key, and every key of
    the input is still there: each item keeps exactly one
    representative. *)
Theorem deduplicate_keeps_one_per_key xs :
  NoDup (dedup_key <$> deduplicate xs) /\
  forall k, k ∈ dedup_key <$> deduplicate xs <-> k ∈ dedup_key <$> xs.
Proof.
  unfold deduplicate. split; [apply dedup_loop_keys|].
  intros k. rewrite dedup_loop_key_set. set_solver.
Qed.

(** X11.  Deduplication changes a list exactly when two of its listings
    share a key. *)
Theorem deduplicate_fixes_iff xs :
  deduplicate xs = xs <-> NoDup (dedup_key <$> xs).
Proof.
  unfold deduplicate. split.
  - intros E. rewrite <- E at 1. apply dedup_loop_keys.
  - intros Hnd. apply dedup_loop_id; [done|set_solver].
Qed.

Lemma dedup_loop_seen_filter ys (S seen : gset string) :
  dedup_loop ys (S ∪ seen) [] =
  filter (fun y => dedup_key y ∉ S) (dedup_loop ys seen []).
Proof.
  revert seen. induction ys as [|y ys IH]; intros seen; [done|].
  rewrite !dedup_loop_cons.
  destruct (decide (dedup_key y ∉ seen)) as [Hnew|Hold].
  - rewrite filter_cons. destruct (decide (dedup_key y ∉ S)) as [HS|HS].
    + rewrite decide_True by set_solver. f_equal. rewrite <- IH.
      f_equal. set_solver.
    + rewrite decide_False by set_solver. rewrite <- IH.
      f_equal. apply dec_stable in HS. set_solver.
  - rewrite decide_False by set_solver. apply IH.
Qed.

(** X12.  Deduplicating two batches in a row keeps what deduplication keeps
    of the first batch, followed by what it keeps of the second batch
    whose key is not in the first: later queries never displace a listing
    of an earlier one. *)
Theorem deduplicate_app xs ys :
  deduplicate (xs ++ ys) =
  deduplicate xs ++
  filter (fun y => dedup_key y ∉ dedup_key <$> xs) (deduplicate ys).
Proof.
  unfold deduplicate. rewrite dedup_loop_app, dedup_loop_seen_filter. f_equal.
  apply list_filter_iff. intros y. by rewrite elem_of_list_to_set.
Qed.

End DedupMore.

(** ** More on the ranking *)

Section SortMore.
Import Scraper Spec Run.
Local Open Scope list_scope.

(** X13.  Sorting only reorders: the result is a permutation of the input,
    and listings with the same key keep their relative order. *)
Theorem sort_permutes_stably xs :
  sort xs ≡ₚ xs /\
  forall k, filter (fun l => sort_key l = k) (sort xs) =
            filter (fun l => sort_key l = k) xs.
Proof. split; [apply sort_perm|]. intros k. apply sort_stable. Qed.

Lemma insert_sorted_in_order x ys :
  Sorted in_order ys -> Sorted in_order (insert_sorted x ys).
Proof.
  intros Hsorted. induction Hsorted as [|y ys Hs IH Hhd]; simpl.
  - repeat constructor.
  - destruct (key_lt (sort_key y) (sort_key x)) eqn:Hlt.
    + constructor; [done|]. apply insert_sorted_HdRel; [|done].
      by apply key_lt_asym.
    + by repeat constructor.
Qed.

Lemma sort_in_order xs : Sorted in_order (sort xs).
Proof.
  induction xs as [|x xs IH]; simpl; [constructor|].
  by apply insert_sorted_in_order.
Qed.

Lemma sort_fixes_sorted xs : Sorted in_order xs -> sort xs = xs.
Proof.
  induction 1 as [|x xs Hs IH Hhd]; simpl; [done|].
  rewrite IH. destruct Hhd as [|y ys Hxy]; simpl; [done|].
  unfold in_order in Hxy. by rewrite Hxy.
Qed.

(** X14.  Sorting a list in which no listing's key is below its
    predecessor's changes nothing; so sorting twice is sorting once. *)
Theorem sort_idempotent :
  (forall xs, Sorted in_order xs -> sort xs = xs) /\
  (forall xs, sort (sort xs) = sort xs).
Proof.
  split; [apply sort_fixes_sorted|].
  intros xs. apply sort_fixes_sorted, sort_in_order.
Qed.

Lemma sort_idempotent_witness :
  Sorted in_order [Sample.bose_listing;
                   Sample.plain_listing "https://www.ebay.com/itm/2" 14900 3] /\
  sort [Sample.bose_listing;
        Sample.plain_listing "https://www.ebay.com/itm/2" 14900 3] =
    [Sample.bose_listing;
     Sample.plain_listing "https://www.ebay.com/itm/2" 14900 3].
Proof.
  assert (Sorted in_order [Sample.bose_listing;
            Sample.plain_listing "https://www.ebay.com/itm/2" 14900 3]) as H
    by (repeat constructor).
  split; [exact H|]. exact (proj1 sort_idempotent _ H).
Defined.

Lemma in_order_scores a b : in_order a b -> deal_score b <= deal_score a.
Proof.
  unfold in_order, key_lt, sort_key. simpl.
  destruct (Z.eqb_spec (- deal_score b) (- deal_score a)); simpl; lia.
Qed.

Lemma Sorted_weaken {A} (R1 R2 : relation A) l :
  (forall a b, R1 a b -> R2 a b) -> Sorted R1 l -> Sorted R2 l.
Proof.
  intros HR. induction 1 as [|x l Hs IH Hhd]; constructor; [done|].
  destruct Hhd; constructor; auto.
Qed.

Lemma sort_scores_StronglySorted xs :
  StronglySorted (fun a b => deal_score b <= deal_score a) (sort xs).
Proof.
  apply Sorted_StronglySorted.
  - intros a b c ? ?. lia.
  - eapply Sorted_weaken; [|apply sort_in_order].
    intros a b. apply in_order_scores.
Qed.

Lemma StronglySorted_lookup {A} (R : relation A) l i j a b :
  StronglySorted R l -> (i < j)%nat ->
  l !! i = Some a -> l !! j = Some b -> R a b.
Proof.
  intros Hs. revert i j. induction Hs as [|x l Hs IH Hall]; intros i j Hij; [done|].
  destruct i as [|i], j as [|j]; simpl; try lia.
  - intros [= ->] Hb. rewrite Forall_forall in Hall.
    apply Hall. by eapply list_elem_of_lookup_2.
  - apply IH. lia.
Qed.

(** X15.  In the sorted list the scores never rise: a listing further down
    has a score at most that of any listing above it, whatever the
    prices. *)
Theorem sorted_scores_descend xs i j a b :
  (i < j)%nat -> sort xs !! i = Some a -> sort xs !! j = Some b ->
  deal_score b <= deal_score a.
Proof.
  intros Hij Ha Hb.
  exact (StronglySorted_lookup _ _ i j a b (sort_scores_StronglySorted xs) Hij Ha Hb).
Qed.

Lemma sorted_scores_descend_witness :
  (0 < 2)%nat /\
  sort [Sample.plain_listing "https://www.ebay.com/itm/1" 29900 3;
        Sample.bose_listing;
        Sample.plain_listing "https://www.ebay.com/itm/2" 14900 3] !! 0%nat =
    Some Sample.bose_listing /\
  sort [Sample.plain_listing "https://www.ebay.com/itm/1" 29900 3;
        Sample.bose_listing;
        Sample.plain_listing "https://www.ebay.com/itm/2" 14900 3] !! 2%nat =
    Some (Sample.plain_listing "https://www.ebay.com/itm/1" 29900 3) /\
  deal_score (Sample.plain_listing "https://www.ebay.com/itm/1" 29900 3) <=
    deal_score Sample.bose_listing.
Proof.
  split; [lia|]. split; [reflexivity|]. split; [reflexivity|].
  apply (sorted_scores_descend
    [Sample.plain_listing "https://www.ebay.com/itm/1" 29900 3;
     Sample.bose_listing;
     Sample.plain_listing "https://www.ebay.com/itm/2" 14900 3] 0 2);
    [lia|reflexivity|reflexivity].
Defined.

Lemma ranked_before_trans a b c :
  ranked_before a b -> ranked_before b c -> ranked_before a c.
Proof.
  unfold ranked_before. intros [H1 H2] [H3 H4]. split; [lia|].
  intros E. assert (deal_score a = deal_score b) as E1 by lia.
  assert (deal_score b = deal_score c) as E2 by lia.
  eapply leb_trans; eauto.
Qed.

(** X16.  With prices that are numbers, every listing of the sorted list
    ranks before every listing further down, not only before its
    successor. *)
Theorem sorted_ranks_all_pairs xs i j a b :
  Forall numeric xs ->
  (i < j)%nat -> sort xs !! i = Some a -> sort xs !! j = Some b ->
  deal_score b <= deal_score a /\
  (deal_score a = deal_score b -> F64.leb (price a) (price b) = true).
Proof.
  intros Hnum Hij Ha Hb.
  refine (StronglySorted_lookup ranked_before _ i j a b _ Hij Ha Hb).
  apply Sorted_StronglySorted; [|by apply sort_Sorted].
  intros x y z. apply ranked_before_trans.
Qed.

Lemma sorted_ranks_all_pairs_witness :
  Forall numeric
    [Sample.plain_listing "https://www.ebay.com/itm/1" 29900 8;
     Sample.bose_listing;
     Sample.plain_listing "https://www.ebay.com/itm/2" 14900 8] /\
  deal_score (Sample.plain_listing "https://www.ebay.com/itm/1" 29900 8) <=
    deal_score (Sample.plain_listing "https://www.ebay.com/itm/2" 14900 8) /\
  (deal_score (Sample.plain_listing "https://www.ebay.com/itm/2" 14900 8) =
   deal_score (Sample.plain_listing "https://www.ebay.com/itm/1" 29900 8) ->
   F64.leb (price (Sample.plain_listing "https://www.ebay.com/itm/2" 14900 8))
           (price (Sample.plain_listing "https://www.ebay.com/itm/1" 29900 8)) = true).
Proof.
  assert (Forall numeric
    [Sample.plain_listing "https://www.ebay.com/itm/1" 29900 8;
     Sample.bose_listing;
     Sample.plain_listing "https://www.ebay.com/itm/2" 14900 8]) as H
    by (repeat constructor).
  split; [exact H|].
  apply (sorted_ranks_all_pairs _ 0 2 _ _ H); [lia|reflexivity|reflexivity].
Defined.

End SortMore.

(** ** More on the report *)

Section ReportMore.
Import Scraper Spec Run.
Local Open Scope list_scope.

Lemma take_length_take {A} (l : list A) n : take (length (take n l)) l = take n l.
Proof.
  rewrite length_take. destruct (Nat.min_spec n (length l)) as [[_ ->]|[Hle ->]].
  - done.
  - by rewrite !take_ge by lia.
Qed.

Lemma filter_threshold_prefix (t : Z) l :
  StronglySorted (fun a b => deal_score b <= deal_score a) l ->
  filter (fun x => t <= deal_score x) l =
  take (length (filter (fun x => t <= deal_score x) l)) l.
Proof.
  induction 1 as [|x l Hs IH Hall]; [done|].
  rewrite filter_cons. case_decide as Hx.
  - simpl. by rewrite <- IH.
  - assert (filter (fun x => t <= deal_score x) l = []) as ->; [|done].
    apply filter_nil_Forall. eapply Forall_impl; [exact Hall|].
    simpl. intros y. lia.
Qed.

(** X17.  The report shows a prefix of the ranking: when a listing is
    displayed, so is every listing ranked above it. *)
Theorem report_is_prefix_of_ranking xs :
  displayed (sort xs) = take (length (displayed (sort xs))) (sort xs).
Proof.
  unfold displayed, select_top.
  pose proof (filter_threshold_prefix 3 (sort xs) (sort_scores_StronglySorted xs)) as Hp.
  destruct (filter (fun l => 3 <= deal_score l) (sort xs)) as [|y top] eqn:E.
  - by rewrite take_take, take_length_take.
  - rewrite Hp, take_take. by rewrite take_length_take.
Qed.

(** X18.  The report is empty only when there is no listing at all. *)
Theorem report_empty_iff xs : displayed xs = [] <-> xs = [].
Proof.
  unfold displayed, select_top. split; [|by intros ->].
  destruct (filter (fun l => 3 <= deal_score l) xs) as [|y top] eqn:E.
  - rewrite take_take. by destruct xs.
  - done.
Qed.

(** X19.  When there is a listing, the first row of the report is a listing
    whose score no listing exceeds. *)
Theorem best_listing_first xs :
  xs <> [] ->
  exists top rest,
    displayed (sort xs) = top :: rest /\ top ∈ xs /\
    forall l, l ∈ xs -> deal_score l <= deal_score top.
Proof.
  intros Hne.
  destruct (sort xs) as [|top sorted] eqn:Hsort.
  { destruct Hne. symmetry. apply Permutation_nil_l. rewrite <- Hsort.
    apply sort_perm. }
  pose proof (sort_scores_StronglySorted xs) as Hs. rewrite Hsort in Hs.
  apply StronglySorted_inv in Hs as [_ Hall].
  assert (exists rest, displayed (top :: sorted) = top :: rest) as [rest Hd].
  { unfold displayed, select_top. rewrite filter_cons.
    case_decide as Htop; simpl; [by eauto|].
    assert (filter (fun l => 3 <= deal_score l) sorted = []) as ->.
    { apply filter_nil_Forall. eapply Forall_impl; [exact Hall|].
      simpl. intros y. lia. }
    simpl. eauto. }
  exists top, rest. split; [done|].
  assert (forall l, l ∈ xs <-> l ∈ top :: sorted) as Hin.
  { intros l. by rewrite <- Hsort, sort_perm. }
  split; [apply Hin; by left|].
  intros l [->|Hl]%Hin%elem_of_cons; [lia|].
  rewrite Forall_forall in Hall. by apply Hall.
Qed.

Lemma best_listing_first_witness :
  [Sample.plain_listing "https://www.ebay.com/itm/1" 29900 3;
   Sample.bose_listing] <> [] /\
  exists top rest,
    displayed (sort [Sample.plain_listing "https://www.ebay.com/itm/1" 29900 3;
                     Sample.bose_listing]) = top :: rest /\
    top ∈ [Sample.plain_listing "https://www.ebay.com/itm/1" 29900 3;
           Sample.bose_listing] /\
    forall l, l ∈ [Sample.plain_listing "https://www.ebay.com/itm/1" 29900 3;
                   Sample.bose_listing] -> deal_score l <= deal_score top.
Proof.
  assert ([Sample.plain_listing "https://www.ebay.com/itm/1" 29900 3;
           Sample.bose_listing] <> []) as H by done.
  split; [exact H|]. exact (best_listing_first _ H).
Defined.

(** X20.  A run that reaches its report shows at most 20 rows, and no two
    of them have the same link up to the query string. *)
Theorem report_has_no_duplicates responses rows :
  main responses = Ok rows ->
  (length rows <= 20)%nat /\ NoDup (dedup_key <$> rows).
Proof.
  intros (all_listings & Hr & ->)%main_displays.
  split; [unfold displayed; rewrite length_take; lia|].
  unfold ranked in Hr.
  destruct (collect responses []) as [collected|e]; [|done].
  simpl in Hr. injection Hr as <-.
  eapply sublist_NoDup; [|apply fmap_sublist, displayed_sublist].
  rewrite sort_perm. apply dedup_loop_keys.
Qed.

Lemma report_has_no_duplicates_witness :
  main [[Page [Sample.bose; Sample.bose]; RequestException];
        [Page [Sample.plain_node "Klipsch 5.1 set" "$199.00" None]]] =
    Ok [Sample.bose_listing;
        {| title := "Klipsch 5.1 set"; price := F64.of_decimal 19900 2;
           shipping := "N/A"; condition := "N/A"; link := "";
           brand_match := true; deal_score := 5 |}] /\
  (length [Sample.bose_listing;
           {| title := "Klipsch 5.1 set"; price := F64.of_decimal 19900 2;
              shipping := "N/A"; condition := "N/A"; link := "";
              brand_match := true; deal_score := 5 |}] <= 20)%nat /\
  NoDup (dedup_key <$>
    [Sample.bose_listing;
     {| title := "Klipsch 5.1 set"; price := F64.of_decimal 19900 2;
        shipping := "N/A"; condition := "N/A"; link := "";
        brand_match := true; deal_score := 5 |}]).
Proof.
  assert (main [[Page [Sample.bose; Sample.bose]; RequestException];
        [Page [Sample.plain_node "Klipsch 5.1 set" "$199.00" None]]] =
    Ok [Sample.bose_listing;
        {| title := "Klipsch 5.1 set"; price := F64.of_decimal 19900 2;
           shipping := "N/A"; condition := "N/A"; link := "";
           brand_match := true; deal_score := 5 |}]) as H
    by (vm_compute; reflexivity).
  split; [exact H|]. exact (report_has_no_duplicates _ _ H).
Defined.

End ReportMore.

(** ** The search URL *)

Section UrlFacts.
Import Str Urls.

Lemma quote_from_bytes_app a b safe :
  quote_from_bytes (a ++ b)%list safe =
  quote_from_bytes a safe ++ quote_from_bytes b safe.
Proof.
  induction a as [|x a IH]; simpl; [done|].
  by rewrite IH, app_assoc_str.
Qed.

Lemma replace_char_app old new a b :
  replace_char old new (a ++ b) = replace_char old new a ++ replace_char old new b.
Proof. induction a as [|c a IH]; simpl; [done|]. by rewrite IH. Qed.

Lemma quote_char_blank_kept c :
  replace_char " " "+" (quote_from_bytes (utf8 c) " ") = quote_char c.
Proof. destruct c as [[] [] [] [] [] [] [] []]; reflexivity. Qed.

Lemma quote_blank_kept s :
  replace_char " " "+" (quote s " ") = quote_chars s.
Proof.
  unfold quote, encode. induction s as [|c s IH]; simpl; [done|].
  by rewrite quote_from_bytes_app, replace_char_app, IH, quote_char_blank_kept.
Qed.

Lemma quote_no_blank s :
  any (Ascii.eqb " ") s = false -> quote s "" = quote_chars s.
Proof.
  unfold quote, encode. induction s as [|c s IH]; [done|].
  change (any (Ascii.eqb " ") (String c s))
    with (Ascii.eqb " " c || any (Ascii.eqb " ") s).
  intros [Hc Hs]%orb_false_iff. simpl.
  rewrite quote_from_bytes_app, IH by done. unfold quote_char.
  rewrite Ascii.eqb_sym in Hc. by rewrite Hc.
Qed.

(** [quote_plus] works character by character, whichever branch it takes. *)
Lemma quote_plus_chars s : quote_plus s = quote_chars s.
Proof.
  unfold quote_plus. destruct (any (Ascii.eqb " ") s) eqn:E.
  - apply quote_blank_kept.
  - by apply quote_no_blank.
Qed.

Lemma quote_chars_app a b : quote_chars (a ++ b) = quote_chars a ++ quote_chars b.
Proof.
  induction a as [|c a IH]; simpl; [done|]. by rewrite IH, app_assoc_str.
Qed.

Lemma quote_char_safe c :
  any (Ascii.eqb c) ALWAYS_SAFE = true -> quote_char c = String c "".
Proof. destruct c as [[] [] [] [] [] [] [] []]; by vm_compute. Qed.

(** X21.  [quote_plus] quotes a text piece by piece, and leaves a text of
    letters, digits and the characters [_.-~] as it is. *)
Theorem quote_plus_app :
  (forall a b, quote_plus (a ++ b) = quote_plus a ++ quote_plus b) /\
  (forall s, all (fun c => any (Ascii.eqb c) ALWAYS_SAFE) s = true ->
             quote_plus s = s).
Proof.
  split.
  - intros a b. rewrite !quote_plus_chars. apply quote_chars_app.
  - intros s. rewrite quote_plus_chars.
    induction s as [|c s IH]; simpl; [done|].
    intros [Hc Hs]%andb_true_iff. by rewrite (quote_char_safe c Hc), IH.
Qed.

Lemma quote_plus_app_witness :
  all (fun c => any (Ascii.eqb c) ALWAYS_SAFE) "5.1" = true /\
  quote_plus "5.1" = "5.1".
Proof.
  split; [reflexivity|]. apply (proj2 quote_plus_app). reflexivity.
Defined.

Lemma quote_char_url_safe c : all url_safe (quote_char c) = true.
Proof. destruct c as [[] [] [] [] [] [] [] []]; by vm_compute. Qed.

Lemma quote_chars_url_safe s : all url_safe (quote_chars s) = true.
Proof.
  induction s as [|c s IH]; simpl; [done|].
  by rewrite all_app, quote_char_url_safe, IH.
Qed.

Lemma url_safe_not_syntax c :
  url_safe c = true -> any (Ascii.eqb c) "&=?#/ " = false.
Proof. destruct c as [[] [] [] [] [] [] [] []]; by vm_compute. Qed.

Lemma all_any_false (P Q : ascii -> bool) s :
  (forall c, P c = true -> Q c = false) -> all P s = true -> any Q s = false.
Proof.
  intros HPQ. induction s as [|c s IH]; [done|].
  change (all P (String c s)) with (P c && all P s).
  change (any Q (String c s)) with (Q c || any Q s).
  intros [Hc Hs]%andb_true_iff. by rewrite (HPQ c Hc), IH.
Qed.

(** X22.  A quoted query is made of letters, digits and the characters
    [_.-~+%] only: whatever the query, it brings no [&], [=], [?], [#],
    [/] or blank into the URL. *)
Theorem quote_plus_alphabet s :
  all url_safe (quote_plus s) = true /\
  any (fun c => any (Ascii.eqb c) "&=?#/ ") (quote_plus s) = false.
Proof.
  rewrite quote_plus_chars. pose proof (quote_chars_url_safe s) as H.
  split; [done|]. revert H. apply all_any_false, url_safe_not_syntax.
Qed.

Lemma unquote_step_quote_char c r :
  unquote_step (quote_char c ++ r) = Some (c, r).
Proof. destruct c as [[] [] [] [] [] [] [] []]; reflexivity. Qed.

Lemma quote_chars_inj s1 s2 : quote_chars s1 = quote_chars s2 -> s1 = s2.
Proof.
  revert s2. induction s1 as [|c1 s1 IH]; intros [|c2 s2]; simpl; [done| | |].
  - intros E. pose proof (unquote_step_quote_char c2 (quote_chars s2)) as H.
    by rewrite <- E in H.
  - intros E. pose proof (unquote_step_quote_char c1 (quote_chars s1)) as H.
    by rewrite E in H.
  - intros E. pose proof (unquote_step_quote_char c1 (quote_chars s1)) as H.
    rewrite E, unquote_step_quote_char in H. injection H as -> E'.
    f_equal. apply IH. congruence.
Qed.

(** X23.  [quote_plus] is injective: two different queries never have the
    same quoted form. *)
Theorem quote_plus_inj s1 s2 : quote_plus s1 = quote_plus s2 -> s1 = s2.
Proof. rewrite !quote_plus_chars. apply quote_chars_inj. Qed.

Lemma quote_plus_inj_witness :
  quote_plus "5.1 set" = quote_plus ("5.1" ++ " set") /\ "5.1 set" = "5.1" ++ " set".
Proof.
  assert (quote_plus "5.1 set" = quote_plus ("5.1" ++ " set")) as H by reflexivity.
  split; [exact H|]. exact (quote_plus_inj _ _ H).
Defined.

Lemma uint_chars d :
  all is_digit (DecimalString.NilEmpty.string_of_uint d) = true.
Proof. induction d; simpl; try done. Qed.

Lemma str_int_chars n :
  any (fun c => Ascii.eqb c "&") (str_int n) = false.
Proof.
  assert (forall d, any (fun c => Ascii.eqb c "&")
            (DecimalString.NilEmpty.string_of_uint d) = false) as Hu.
  { intros d. eapply all_any_false; [|apply uint_chars].
    intros c. by destruct c as [[] [] [] [] [] [] [] []]. }
  unfold str_int. destruct (Z.to_int n) as [d|d]; simpl.
  - destruct d; try done; apply (Hu (_ d)).
  - destruct d; try done; apply (Hu (_ d)).
Qed.

Lemma str_int_inj n1 n2 : str_int n1 = str_int n2 -> n1 = n2.
Proof.
  unfold str_int. intros E. apply DecimalZ.to_int_inj.
  assert (forall n, Z.to_int n <> Decimal.Pos Decimal.Nil /\
                    Z.to_int n <> Decimal.Neg Decimal.Nil) as Hnil.
  { intros n. split; intros Hn; pose proof (f_equal Z.of_int Hn) as Hn';
      rewrite DecimalZ.of_to in Hn'; vm_compute in Hn'; subst n;
      by vm_compute in Hn. }
  destruct (Hnil n1) as [H1 H1'], (Hnil n2) as [H2 H2'].
  pose proof (DecimalString.NilZero.isi _ H1 H1') as E1.
  pose proof (DecimalString.NilZero.isi _ H2 H2') as E2.
  rewrite E in E1. congruence.
Qed.

Lemma before_amp u m s :
  any (fun c => Ascii.eqb c "&") u = false ->
  before "&" (u ++ String "&" m ++ s) = u.
Proof. intros Hu. rewrite before_app, Hu. simpl. apply app_nil_r_str. Qed.

Lemma quote_plus_no_amp s :
  any (fun c => Ascii.eqb c "&") (quote_plus s) = false.
Proof.
  rewrite quote_plus_chars. eapply all_any_false; [|apply quote_chars_url_safe].
  intros c. by destruct c as [[] [] [] [] [] [] [] []]; vm_compute.
Qed.

Lemma build_url_cancel q1 p1 q2 p2 :
  build_url q1 p1 = build_url q2 p2 -> q1 = q2 /\ p1 = p2.
Proof.
  unfold build_url. cbv zeta. intros E.
  apply (String.app_inj "https://www.ebay.com/sch/i.html?_nkw=") in E.
  assert (quote_plus q1 = quote_plus q2) as Eq.
  { apply (f_equal (before "&")) in E.
    by rewrite !before_amp in E by apply quote_plus_no_amp. }
  rewrite Eq in E. apply String.app_inj in E.
  apply (String.app_inj "&_sacat=0&LH_BIN=1&_sop=15&_pgn=") in E.
  split.
  - rewrite !quote_plus_chars in Eq. by apply quote_chars_inj.
  - apply str_int_inj. apply (f_equal (before "&")) in E.
    by rewrite !before_amp in E by apply str_int_chars.
Qed.

(** X24.  [build_url] is injective: the URL determines the query and the
    page number. *)
Theorem build_url_inj q1 p1 q2 p2 :
  build_url q1 p1 = build_url q2 p2 -> q1 = q2 /\ p1 = p2.
Proof. apply build_url_cancel. Qed.

Lemma build_url_inj_witness :
  build_url "home theater" 2 = build_url ("home" ++ " theater") (1 + 1) /\
  "home theater" = "home" ++ " theater" /\ 2 = 1 + 1.
Proof.
  assert (build_url "home theater" 2 = build_url ("home" ++ " theater") (1 + 1))
    as H by reflexivity.
  split; [exact H|]. exact (build_url_inj _ _ _ _ H).
Defined.

(** X25.  A run over pairwise different queries never requests the same
    URL twice; the script's four queries give eight different URLs. *)
Theorem requests_distinct :
  (forall queries, NoDup queries -> NoDup (requests queries)) /\
  NoDup (requests SEARCH_QUERIES) /\ length (requests SEARCH_QUERIES) = 8%nat.
Proof.
  assert (forall queries, NoDup queries -> NoDup (requests queries)) as H.
  { intros queries Hq. unfold requests, requests_of. apply NoDup_bind; [| |done].
    - intros q1 q2 url _ _ (p1 & -> & _)%list_elem_of_fmap (p2 & E & _)%list_elem_of_fmap.
      by apply build_url_cancel in E as [? _].
    - intros q _. apply NoDup_fmap_2_strong; [|apply NoDup_seqZ].
      intros p1 p2 _ _ E. by apply build_url_cancel in E as [_ ?]. }
  split; [exact H|]. split; [|reflexivity].
  apply H. unfold SEARCH_QUERIES. repeat (constructor; [set_solver|]). constructor.
Qed.

Lemma requests_distinct_witness :
  NoDup ["sonos arc"; "sonos beam"] /\ NoDup (requests ["sonos arc"; "sonos beam"]).
Proof.
  assert (NoDup ["sonos arc"; "sonos beam"]) as H
    by (repeat (constructor; [set_solver|]); constructor).
  split; [exact H|]. exact (proj1 requests_distinct _ H).
Defined.

End UrlFacts.

(** ** Paths *)

Section PathFacts.
Import Str Path Sitemap.






















End PathFacts.

(** ** The sitemap generator *)

Section SitemapFacts.
Import Str Path Sitemap.

Lemma endswith_nonempty suffix s :
  suffix <> "" -> endswith suffix s = true -> s <> "".
Proof. intros Hs He ->. simpl in He. destruct suffix; [done|]. done. Qed.

Lemma listed_nonempty file : listed file = true -> file <> "".
Proof.
  unfold listed. intros [[He _]%andb_true_iff _]%andb_true_iff.
  by apply (endswith_nonempty ".html").
Qed.

Lemma join2_nonempty a b : b <> "" -> join2 a b <> "".
Proof.
  intros Hb. unfold join2. destruct (startswith "/" b); [done|].
  destruct (_ || _); destruct a, b; done.
Qed.

Lemma relpath_ok cwd path start :
  path <> "" -> exists rel, relpath cwd path start = Ok rel.
Proof.
  intros Hp. unfold relpath. apply String.eqb_neq in Hp as ->.
  destruct (_ ++ _)%list; eauto.
Qed.

Lemma replace_backslash s :
  any (fun c => Ascii.eqb c "\") (Urls.replace_char "\" "/" s) = false.
Proof.
  induction s as [|c s IH]; [done|].
  change (Urls.replace_char "\" "/" (String c s))
    with (String (if Ascii.eqb c "\" then "/"%char else c)
                 (Urls.replace_char "\" "/" s)).
  change (any ?p (String ?a ?t)) with (p a || any p t). cbv beta.
  rewrite IH, orb_false_r. destruct (Ascii.eqb c "\") eqn:E; [done|exact E].
Qed.

Lemma visit_outcome cwd today root file :
  exists r, visit cwd today root file = Ok r /\
    (if listed file then exists u, r = Some u /\ well_formed today u
     else r = None).
Proof.
  unfold visit. destruct (listed file) eqn:Hl; [|by eauto].
  destruct (relpath_ok cwd (join2 root file) OUTPUT_DIR) as [rel ->].
  { by apply join2_nonempty, listed_nonempty. }
  eexists. split; [reflexivity|]. eexists. split; [reflexivity|].
  unfold well_formed. cbn [loc lastmod changefreq priority].
  split; [done|]. split; [done|]. split; [done|].
  destruct (String.eqb _ "index.html").
  - split; [by left|reflexivity].
  - split; [right; eauto|].
    rewrite !any_app. rewrite replace_backslash. reflexivity.
Qed.

Lemma visit_files_outcome cwd today root files urlset :
  exists us, visit_files cwd today root files urlset = Ok (urlset ++ us)%list /\
    length us = length (filter (fun f => listed f = true) files) /\
    Forall (well_formed today) us.
Proof.
  revert urlset. induction files as [|file files IH]; intros urlset; simpl.
  - exists []. by rewrite app_nil_r.
  - destruct (visit_outcome cwd today root file) as (r & -> & Hr). simpl.
    rewrite filter_cons. destruct (listed file).
    + destruct Hr as (u & -> & Hu).
      destruct (IH (urlset ++ [u])%list) as (us & -> & Hlen & Hus).
      exists (u :: us). rewrite <- app_assoc. rewrite decide_True by done.
      simpl. split; [done|]. split; [by rewrite Hlen|by constructor].
    + subst r. destruct (IH urlset) as (us & -> & Hlen & Hus).
      exists us. by rewrite decide_False by done.
Qed.

Lemma visit_dirs_outcome cwd today walk urlset :
  exists us, visit_dirs cwd today walk urlset = Ok (urlset ++ us)%list /\
    length us = length (filter (fun f => listed f = true) (concat walk.*2)) /\
    Forall (well_formed today) us.
Proof.
  revert urlset. induction walk as [|[root files] walk IH]; intros urlset; simpl.
  - exists []. by rewrite app_nil_r.
  - destruct (visit_files_outcome cwd today root files urlset)
      as (us1 & -> & Hlen1 & Hus1). simpl.
    destruct (IH (urlset ++ us1)%list) as (us2 & -> & Hlen2 & Hus2).
    exists (us1 ++ us2)%list. rewrite <- app_assoc. split; [done|].
    rewrite filter_app, !length_app, Hlen1, Hlen2. split; [done|].
    by apply Forall_app.
Qed.


(** X27.  Every location in the sitemap is the site URL or lies below it,
    and contains no backslash. *)
Theorem sitemap_locations cwd today walk urlset :
  generate_sitemap cwd today walk = Ok urlset ->
  Forall (fun u => (loc u = SITE_URL \/ exists rel, loc u = SITE_URL ++ "/" ++ rel) /\
                   any (fun c => Ascii.eqb c "\") (loc u) = false) urlset.
Proof.
  destruct (visit_dirs_outcome cwd today walk []) as (us & H & _ & Hus).
  unfold generate_sitemap. rewrite H. intros [= <-].
  eapply Forall_impl; [exact Hus|]. by intros u (_ & _ & _ & ? & ?).
Qed.

Lemma sitemap_locations_witness :
  generate_sitemap "/home/u" "2026-11-04"
    [("book/html", ["index.html"; "404.html"; "style.css"]);
     ("book/html/api", ["index.html"; "x.html"])] =
  Ok [ {| loc := "https://oxidize-rb.github.io/rb-sys";
          lastmod := "2026-11-04"; changefreq := "weekly"; priority := "0.8" |};
       {| loc := "https://oxidize-rb.github.io/rb-sys/api/index.html";
          lastmod := "2026-11-04"; changefreq := "weekly"; priority := "0.8" |};
       {| loc := "https://oxidize-rb.github.io/rb-sys/api/x.html";
          lastmod := "2026-11-04"; changefreq := "weekly"; priority := "0.8" |} ] /\
  Forall (fun u => (loc u = SITE_URL \/ exists rel, loc u = SITE_URL ++ "/" ++ rel) /\
                   any (fun c => Ascii.eqb c "\") (loc u) = false)
    [ {| loc := "https://oxidize-rb.github.io/rb-sys";
         lastmod := "2026-11-04"; changefreq := "weekly"; priority := "0.8" |};
      {| loc := "https://oxidize-rb.github.io/rb-sys/api/index.html";
         lastmod := "2026-11-04"; changefreq := "weekly"; priority := "0.8" |};
      {| loc := "https://oxidize-rb.github.io/rb-sys/api/x.html";
         lastmod := "2026-11-04"; changefreq := "weekly"; priority := "0.8" |} ].
Proof.
  assert (generate_sitemap "/home/u" "2026-11-04"
    [("book/html", ["index.html"; "404.html"; "style.css"]);
     ("book/html/api", ["index.html"; "x.html"])] =
  Ok [ {| loc := "https://oxidize-rb.github.io/rb-sys";
          lastmod := "2026-11-04"; changefreq := "weekly"; priority := "0.8" |};
       {| loc := "https://oxidize-rb.github.io/rb-sys/api/index.html";
          lastmod := "2026-11-04"; changefreq := "weekly"; priority := "0.8" |};
       {| loc := "https://oxidize-rb.github.io/rb-sys/api/x.html";
          lastmod := "2026-11-04"; changefreq := "weekly"; priority := "0.8" |} ])
    as H by (vm_compute; reflexivity).
  split; [exact H|]. exact (sitemap_locations _ _ _ _ H).
Defined.


















End SitemapFacts.
